(** * MITRotor momentum models: a shallow embedding of [MITRotor/MomentumTheory.py]

    The file embeds the four momentum models of the repository
    ([LimitedHeck], [Heck], [UnifiedMomentum], [ThrustBasedUnified]), the
    [MomentumSolution] record they return and the fixed-point engine they
    share, and proves the properties the specification states about them.

    Numbers are IEEE-754 binary64 values, as numpy's [float64]: the
    operations [+ - * / sqrt] are the correctly rounded ones of the standard
    library's [SpecFloat] at precision 53, with its signed zeros, infinities
    and its single not-a-number.  numpy's default error state does not trap:
    a division by zero gives an infinity or a not-a-number.  *)

From Stdlib Require Import ZArith List Bool Lia.
From Stdlib Require Import Floats.SpecFloat.
Import ListNotations.

(** ** Binary64 numbers *)

Abbreviation float := spec_float (only parsing).

Definition prec : Z := 53.
Definition emax : Z := 1024.

Definition fadd : float -> float -> float := SFadd prec emax.
Definition fsub : float -> float -> float := SFsub prec emax.
Definition fmul : float -> float -> float := SFmul prec emax.
Definition fdiv : float -> float -> float := SFdiv prec emax.
Definition fsqrt : float -> float := SFsqrt prec emax.
Definition fopp : float -> float := SFopp.
Definition fabs : float -> float := SFabs.
Definition fltb : float -> float -> bool := SFltb.
Definition feqb : float -> float -> bool := SFeqb.

Definition nan : float := S754_nan.
Definition zero : float := S754_zero false.

(** The binary64 value of an integer of at most 53 bits. *)
Definition of_Z (z : Z) : float := binary_normalize prec emax z 0 false.

Definition one : float := of_Z 1.

(** A decimal literal [i.f] of the source denotes the binary64 value nearest
    to it.  With [i.f = n / 10^k] and both [n] and [10^k] below [2^53], that
    value is the correctly rounded quotient of two exact integers. *)
Definition exact_int (z : Z) : bool := (Z.abs z <? 2 ^ 53)%Z.

Definition of_decimal (d : Decimal.decimal) : option spec_float :=
  match d with
  | Decimal.Decimal i f =>
      let n := Z.of_int (Decimal.app_int i f) in
      let d := (10 ^ Z.of_nat (Decimal.nb_digits f))%Z in
      if exact_int n && exact_int d then Some (fdiv (of_Z n) (of_Z d)) else None
  | Decimal.DecimalExp _ _ _ => None
  end.

Definition of_number (n : Number.number) : option spec_float :=
  match n with
  | Number.Decimal d => of_decimal d
  | Number.Hexadecimal _ => None
  end.

Definition to_number (f : spec_float) : option Number.number := None.

Declare Scope py_scope.
Delimit Scope py_scope with py.
Number Notation spec_float of_number to_number : py_scope.
Bind Scope py_scope with spec_float.

(** [np.pi], the binary64 value 3.141592653589793. *)
Definition np_pi : float := S754_finite false 7074237752028440 (-51).

Definition is_nan (x : float) : bool :=
  match x with S754_nan => true | _ => false end.

Definition is_zero (x : float) : bool :=
  match x with S754_zero _ => true | _ => false end.

Definition is_finite (x : float) : bool :=
  match x with S754_zero _ | S754_finite _ _ _ => true | _ => false end.

(** [np.sign] on one number: -1, 0 or 1, and not-a-number on not-a-number. *)
Definition fsign (x : float) : float :=
  if fltb zero x then one
  else if fltb x zero then fopp one
  else if feqb x zero then zero
  else x.

(** [np.maximum] on two numbers; a not-a-number operand wins. *)
Definition fmaximum (x y : float) : float :=
  if is_nan x then x
  else if is_nan y then y
  else if fltb x y then y else x.

(** ** Values: a number or a one-dimensional array of numbers *)

Inductive val : Type :=
| Scalar (x : float)
| Arr (l : list float).
Bind Scope py_scope with val.

Fixpoint zip_with (op : float -> float -> float) (l1 l2 : list float) : list float :=
  match l1, l2 with
  | x :: l1', y :: l2' => op x y :: zip_with op l1' l2'
  | _, _ => []
  end.

(** numpy's broadcasting of a binary operation: a scalar or a one-element
    array is stretched along the other operand, two arrays of the same length
    combine element by element, and any other pair of arrays raises
    [ValueError], here [None]. *)
Definition broadcast (op : float -> float -> float) (a b : val) : option val :=
  match a, b with
  | Scalar x, Scalar y => Some (Scalar (op x y))
  | Scalar x, Arr l => Some (Arr (map (op x) l))
  | Arr l, Scalar y => Some (Arr (map (fun a => op a y) l))
  | Arr l1, Arr l2 =>
      match l1, l2 with
      | [x], _ => Some (Arr (map (op x) l2))
      | _, [y] => Some (Arr (map (fun a => op a y) l1))
      | _, _ =>
          if Nat.eqb (length l1) (length l2) then Some (Arr (zip_with op l1 l2))
          else None
      end
  end.

Definition vmap (f : float -> float) (a : val) : val :=
  match a with
  | Scalar x => Scalar (f x)
  | Arr l => Arr (map f l)
  end.

(** Every element of a value satisfies [p]. *)
Definition vforallb (p : float -> bool) (a : val) : bool :=
  match a with
  | Scalar x => p x
  | Arr l => forallb p l
  end.

(** The shape of a value: [None] for a scalar, the length for an array. *)
Definition shape (a : val) : option nat :=
  match a with
  | Scalar _ => None
  | Arr l => Some (length l)
  end.

Definition shape_eqb (s1 s2 : option nat) : bool :=
  match s1, s2 with
  | None, None => true
  | Some n, Some m => Nat.eqb n m
  | _, _ => false
  end.

(** [np.max]: the largest element, not-a-number if one is present;
    [ValueError] on an empty array. *)
Definition np_max (a : val) : option float :=
  match a with
  | Scalar x => Some x
  | Arr [] => None
  | Arr (x :: l) => Some (fold_left fmaximum l x)
  end.

(** [np.zeros_like] on one value. *)
Definition zeros_like (a : val) : val := vmap (fun _ => zero) a.

(** ** Expressions

    An expression evaluates to a value or raises; an exception raised by a
    sub-expression aborts the whole expression. *)

Definition ex : Type := option val.

Definition pure (v : val) : ex := Some v.

Coercion Scalar : spec_float >-> val.
Coercion pure : val >-> ex.
Bind Scope py_scope with ex.

Definition bop (op : float -> float -> float) (a b : ex) : ex :=
  match a, b with
  | Some a, Some b => broadcast op a b
  | _, _ => None
  end.

Definition uop (f : float -> float) (a : ex) : ex := option_map (vmap f) a.

(** [x ** n] for a literal exponent [n]: [x ** 2] is numpy's square
    [x * x], and a higher exponent is taken as the repeated product. *)
Fixpoint pow (x : ex) (n : nat) : ex :=
  match n with
  | O => Scalar one
  | S O => x
  | S k => bop fmul (pow x k) x
  end.
Arguments pow _%_py _%_nat.

Definition sqrt : ex -> ex := uop fsqrt.

Notation "a + b" := (bop fadd a b) : py_scope.
Notation "a - b" := (bop fsub a b) : py_scope.
Notation "a * b" := (bop fmul a b) : py_scope.
Notation "a / b" := (bop fdiv a b) : py_scope.
Notation "- a" := (uop fopp a) : py_scope.
Notation "a ^ n" := (pow a n) : py_scope.

(** ** Statements

    A statement returns a result together with the calls it made to the
    pressure-field collaborator, each recorded with its two arguments, or
    raises ([None]). *)

Definition call : Type := (val * val)%type.

Definition M (A : Type) : Type := option (A * list call).

Definition ret {A} (a : A) : M A := Some (a, []).

Definition raise {A} : M A := None.

Definition bind {A B} (m : M A) (k : A -> M B) : M B :=
  match m with
  | None => None
  | Some (a, l1) =>
      match k a with
      | None => None
      | Some (b, l2) => Some (b, l1 ++ l2)
      end
  end.

Notation "x <- m ;; k" := (bind m (fun x => k))
  (at level 61, m at next level, right associativity).

(** Evaluating an expression makes no call. *)
Definition eval (e : ex) : M val :=
  match e with
  | Some v => ret v
  | None => raise
  end.

Definition lift {A} (o : option A) : M A :=
  match o with
  | Some a => ret a
  | None => raise
  end.

(** The state vector of an iteration: one value per unknown. *)
Definition state : Type := list val.

Definition uniform (l : list val) : bool :=
  match l with
  | [] => true
  | a :: l' => forallb (fun b => shape_eqb (shape a) (shape b)) l'
  end.

(** [np.array([...])] and [np.zeros_like] on a tuple build a rectangular
    array, so the rows must have one shape. *)
Definition np_array (l : list val) : M state :=
  if uniform l then ret l else raise.

(** [np.vstack]: every row becomes an array (a scalar one of length one) and
    the rows must have one length. *)
Definition atleast_1d (a : val) : val :=
  match a with
  | Scalar x => Arr [x]
  | Arr l => Arr l
  end.

Definition vstack (l : list val) : M state := np_array (map atleast_1d l).

(** [np.nan * np.zeros_like(x0)] for a tuple or array [x0]. *)
Definition nan_like (x0 : state) : M state :=
  z <- np_array (map zeros_like x0) ;;
  ret (map (vmap (fmul nan)) z).

(** ** Collaborators

    The elementary functions [np.cos], [np.sin] and [np.arctan] are those of
    the platform's mathematical library; the model is parametric in them. *)

Class Numpy : Type := {
  np_cos : float -> float;
  np_sin : float -> float;
  np_arctan : float -> float
}.

(** The pressure-field collaborator [NonlinearADPressureField]
    ([MITRotor/PressureSolver], outside the solver core): an opaque function
    of the half thrust coefficient and the near-wake length. *)
Class PressureField : Type := {
  get_pressure : val -> val -> val
}.

Definition cos {np : Numpy} : ex -> ex := uop np_cos.
Definition sin {np : Numpy} : ex -> ex := uop np_sin.
Definition arctan {np : Numpy} : ex -> ex := uop np_arctan.

(** A call to the collaborator, recorded. *)
Definition call_get_pressure {pf : PressureField} (a b : val) : M val :=
  Some (get_pressure a b, [(a, b)]).

(** ** [MomentumSolution] *)

Module MomentumSolution.

Record t : Type := mk {
  Ctprime : val;
  yaw : val;
  an : val;
  u4 : val;
  v4 : val;
  dp : val;
  dp_NL : val;
  niter : nat;
  converged : bool;
  beta : val
}.

(** The constructor with the dataclass defaults
    [dp_NL = 0.0], [niter = 1], [converged = True], [beta = 0.0]. *)
Definition make (Ctprime yaw an u4 v4 dp : val) : t :=
  mk Ctprime yaw an u4 v4 dp 0.0 1 true 0.0.

Section Properties.
Context {np : Numpy}.

Definition solution (self : t) : val * val * val * val :=
  (an self, u4 self, v4 self, dp self).

Definition Ct (self : t) : ex :=
  Ctprime self * (1 - an self) ^ 2 * cos (yaw self) ^ 2.

Definition Cp (self : t) : ex :=
  Ctprime self * ((1 - an self) * cos (yaw self)) ^ 3.

Definition x0 (self : t) : ex :=
  cos (yaw self)
  * sqrt (((1 - an self) * cos (yaw self)) / (1 + u4 self))
  / (2 / (1 + u4 self) * (beta self * (1 - u4 self) / 2)).
End Properties.

End MomentumSolution.

(** ** [LimitedHeck]: the closed-form limiting model *)

Module LimitedHeck.
Section Model.
Context {np : Numpy}.

Definition solve (Ctprime yaw : val) : M MomentumSolution.t :=
  a <- eval (Ctprime * cos yaw ^ 2 / (4 + Ctprime * cos yaw ^ 2)) ;;
  u4 <- eval ((4 - Ctprime * cos yaw ^ 2) / (4 + Ctprime * cos yaw ^ 2)) ;;
  v4 <- eval (- (4 * Ctprime * sin yaw * cos yaw ^ 2)
              / (4 + Ctprime * cos yaw ^ 2) ^ 2) ;;
  dp <- eval (0.0 * a) ;;
  ret (MomentumSolution.make Ctprime yaw a u4 v4 dp).
End Model.
End LimitedHeck.

(** ** The fixed-point iteration engine

    [MITRotor/Utilities.py] is not among the sources; the engine follows
    section 4.1 of the specification. *)

Module Utilities.

(** Modelled from the spec: the result of [fixedpointiteration], "the final
    state [x], the number of iterations performed [niter], and a boolean
    [converged]" (the engine's source is missing). *)
Record FixedPointIterationResult : Type := mkResult {
  converged : bool;
  niter : nat;
  x : state
}.

(** Modelled from the spec: the engine's own defaults for the tolerance and
    the iteration cap, used when a caller leaves them out; their values are
    in the missing source, so they are parameters here. *)
Class Defaults : Type := {
  default_eps : float;
  default_maxiter : nat
}.

(** Modelled from the spec: the update [x_next = x + relax * R(x)] of the
    missing engine, unknown by unknown; the residual has the shape of the
    state. *)
Fixpoint update (relax : float) (x r : state) : M state :=
  match x, r with
  | [], [] => ret []
  | xi :: x', ri :: r' =>
      y <- eval (xi + relax * ri) ;;
      ys <- update relax x' r' ;;
      ret (y :: ys)
  | _, _ => raise
  end.

(** Modelled from the spec: the stopping test of the missing engine, "the
    maximum elementwise absolute residual falls below [eps]": every element
    is below it.  A not-a-number residual is below nothing, so it is
    propagated and the iteration runs to its cap. *)
Definition below (eps : float) (r : state) : bool :=
  forallb (vforallb (fun e => fltb (fabs e) eps)) r.

(** Modelled from the spec: the loop of the missing engine.  Evaluate the
    residual at the current state, update, stop with [converged = true]
    when the residual is below the tolerance; with no evaluation left, stop
    with [converged = false] and the last iterate.  [n] counts the
    evaluations made so far. *)
Fixpoint iterate (f : state -> M state) (relax eps : float)
    (fuel n : nat) (x : state) : M FixedPointIterationResult :=
  match fuel with
  | O => ret (mkResult false n x)
  | S fuel' =>
      r <- f x ;;
      x' <- update relax x r ;;
      if below eps r then ret (mkResult true (S n) x')
      else iterate f relax eps fuel' (S n) x'
  end.

(** Modelled from the spec: [fixedpointiteration] of [MITRotor/Utilities.py],
    which is not among the sources: the loop above, run for at most
    [maxiter] evaluations from [x0], the residual [f] already applied to
    its extra arguments. *)
Definition fixedpointiteration {d : Defaults} (f : state -> M state) (x0 : state)
    (eps : option float) (maxiter : option nat) (relax : float)
    : M FixedPointIterationResult :=
  let eps := match eps with Some e => e | None => default_eps end in
  let maxiter := match maxiter with Some n => n | None => default_maxiter end in
  iterate f relax eps maxiter 0 x0.

End Utilities.

Import Utilities.

(** ** [Heck]: the iterative coupled-velocity model *)

Module Heck.
Section Model.
Context {np : Numpy} {d : Defaults}.

Definition initial_condition (Ctprime yaw : val) : M state :=
  sol <- LimitedHeck.solve Ctprime yaw ;;
  ret [MomentumSolution.an sol; MomentumSolution.u4 sol; MomentumSolution.v4 sol].

Definition residual (x : state) (Ctprime yaw : val) : M state :=
  match x with
  | [a; u4; v4] =>
      e_a <- eval (1 - sqrt (1 - u4 ^ 2 - v4 ^ 2) / (sqrt Ctprime * cos yaw) - a) ;;
      e_u4 <- eval ((1 - 0.5 * Ctprime * (1 - a) * cos yaw ^ 2) - u4) ;;
      e_v4 <- eval (-0.25 * Ctprime * (1 - a) ^ 2 * sin yaw * cos yaw ^ 2 - v4) ;;
      np_array [e_a; e_u4; e_v4]
  | _ => raise
  end.

(** The relaxation factor chosen from the loading. *)
Definition relaxation (Ctprime : val) : M float :=
  m <- lift (np_max Ctprime) ;;
  ret (if fltb 15 m then 0.9 else 0.1)%py.

(** [solve(Ctprime, yaw, x0=None, eps=0.00001, **kwargs)]; the extra
    keyword arguments are accepted and never read. *)
Definition solve (Ctprime yaw : val) (x0 : option state) (eps : option float)
    : M MomentumSolution.t :=
  let eps := match eps with Some e => e | None => 0.00001%py end in
  x0 <- match x0 with
        | None => initial_condition Ctprime yaw
        | Some x0 => ret x0
        end ;;
  relax <- relaxation Ctprime ;;
  sol <- fixedpointiteration (fun x => residual x Ctprime yaw) x0
           (Some eps) None relax ;;
  s <- (if converged sol then ret (x sol) else nan_like x0) ;;
  match s with
  | [a; u4; v4] =>
      let dp := zeros_like a in
      ret (MomentumSolution.mk Ctprime yaw a u4 v4 dp 0.0
             (niter sol) (converged sol) 0.0)
  | _ => raise
  end.
End Model.
End Heck.

(** ** [UnifiedMomentum]: the unified model *)

Module UnifiedMomentum.

(** The object: its [beta]; its pressure field is the [PressureField] in
    context. *)
Record t : Type := mk { beta : float }.

Definition init (beta : option float) : t :=
  mk (match beta with Some b => b | None => 0.1403%py end).

Section Model.
Context {np : Numpy} {pf : PressureField} {d : Defaults}.

Definition initial_condition (Ctprime yaw : val) : M state :=
  an <- eval ((Ctprime * cos yaw ^ 2) / (4 + Ctprime * cos yaw ^ 2)) ;;
  u4 <- eval ((4 - Ctprime * cos yaw ^ 2) / (4 + Ctprime * cos yaw ^ 2)) ;;
  v4 <- eval ((4 * Ctprime * sin yaw * cos yaw ^ 2)
              / ((4 + Ctprime * cos yaw ^ 2) ^ 2)) ;;
  let dp := zeros_like Ctprime in
  vstack [an; u4; v4; dp].

Definition _nonlinear_pressure (self : t) (Ctprime yaw an u4 : val) : M val :=
  x0 <- eval (cos yaw
              * sqrt (((1 - an) * cos yaw) / (1 + u4))
              / (2 / (1 + u4) * (beta self * (1 - u4) / 2))) ;;
  CT <- eval (Ctprime * (1 - an) ^ 2 * cos yaw ^ 2) ;;
  half <- eval (CT / 2) ;;
  call_get_pressure half x0.

Definition residual (self : t) (x : state) (Ctprime yaw : val) : M state :=
  match x with
  | [an; u4; v4; dp] =>
      p_g <- _nonlinear_pressure self Ctprime yaw an u4 ;;
      x0 <- eval (cos yaw
                  * sqrt (((1 - an) * cos yaw) / (1 + u4))
                  / (2 / (1 + u4) * (beta self * (1 - u4) / 2))) ;;
      e_an <- eval (1
                    - sqrt (- dp / (0.5 * Ctprime * cos yaw ^ 2)
                            + (1 - u4 ^ 2 - v4 ^ 2) / (Ctprime * cos yaw ^ 2))
                    - an) ;;
      e_u4 <- eval ((- (1 / 4) * Ctprime * (1 - an) * cos yaw ^ 2
                     + (1 / 2)
                     + (1 / 2)
                       * sqrt ((1 / 2 * Ctprime * (1 - an) * cos yaw ^ 2 - 1) ^ 2
                               - (4 * dp)))
                    - u4) ;;
      e_v4 <- eval (- (1 / 4) * Ctprime * (1 - an) ^ 2 * sin yaw * cos yaw ^ 2 - v4) ;;
      e_dp <- eval ((- (1 / (2 * np_pi))
                     * Ctprime
                     * (1 - an) ^ 2
                     * cos yaw ^ 2
                     * arctan (1 / x0))
                    + p_g
                    - dp) ;;
      ret [e_an; e_u4; e_v4; e_dp]
  | _ => raise
  end.

(** [solve(Ctprime, yaw, x0=None, maxiter=400, relax=0.25)]: the first
    statement rebinds [x0]. *)
Definition solve (self : t) (Ctprime yaw : val) (x0 : option state)
    (maxiter : option nat) (relax : option float) : M MomentumSolution.t :=
  let maxiter := match maxiter with Some n => n | None => 400%nat end in
  let relax := match relax with Some r => r | None => 0.25%py end in
  x0 <- initial_condition Ctprime yaw ;;
  sol <- fixedpointiteration (fun x => residual self x Ctprime yaw) x0
           None (Some maxiter) relax ;;
  s <- (if converged sol then ret (x sol) else nan_like x0) ;;
  match s with
  | [a; u4; v4; dp] =>
      p_g <- _nonlinear_pressure self Ctprime yaw a u4 ;;
      ret (MomentumSolution.mk Ctprime yaw a u4 v4 dp p_g
             (niter sol) (converged sol) (beta self))
  | _ => raise
  end.
End Model.
End UnifiedMomentum.

(** ** [ThrustBasedUnified]: the unified model driven by the thrust coefficient *)

Module ThrustBasedUnified.
Section Model.
Context {np : Numpy} {pf : PressureField} {d : Defaults}.

Definition init : option float -> UnifiedMomentum.t := UnifiedMomentum.init.

Definition initial_condition (Ct yaw : val) : M state :=
  an <- eval (0.5 * Ct) ;;
  u4 <- eval (1 - Ct) ;;
  let v4 := zeros_like Ct in
  let dp := zeros_like Ct in
  let Ctprime := vmap fsign Ct in
  vstack [an; u4; v4; dp; Ctprime].

Definition residual (self : UnifiedMomentum.t) (x : state) (Ct yaw : val) : M state :=
  match x with
  | [an; u4; v4; dp; Ctprime] =>
      r <- UnifiedMomentum.residual self [an; u4; v4; dp] Ctprime yaw ;;
      match r with
      | [e_an; e_u4; e_v4; e_dp] =>
          e_Ctprime <- eval (Ct / ((1 - an) ^ 2 * cos yaw ^ 2) - Ctprime) ;;
          np_array [e_an; e_u4; e_v4; e_dp; e_Ctprime]
      | _ => raise
      end
  | _ => raise
  end.

(** [solve(Ct, yaw, x0=None, relax=0.25, maxiter=5000, **kwargs)], with
    no extra keyword argument; the first statement rebinds [x0]. *)
Definition solve (self : UnifiedMomentum.t) (Ct yaw : val) (x0 : option state)
    (relax : option float) (maxiter : option nat) : M MomentumSolution.t :=
  let relax := match relax with Some r => r | None => 0.25%py end in
  let maxiter := match maxiter with Some n => n | None => 5000%nat end in
  x0 <- initial_condition Ct yaw ;;
  sol <- fixedpointiteration (fun x => residual self x Ct yaw) x0
           None (Some maxiter) relax ;;
  match x sol with
  | [a; u4; v4; dp; Ctprime] =>
      ret (MomentumSolution.mk Ctprime yaw a u4 v4 dp 0.0
             (niter sol) (converged sol) (UnifiedMomentum.beta self))
  | _ => raise
  end.
End Model.
End ThrustBasedUnified.

(** ** A reference instantiation of the collaborators

    Used to run the models on concrete inputs.  The elementary functions are
    short alternating series; at the angle 0, the only one the concrete runs
    use, they return [cos 0 = 1] and [sin 0 = 0] exactly, as every IEEE-754
    mathematical library does.  The pressure field returns the correction
    0.01 for every element of its first argument, and the engine defaults are
    the tolerance [1e-5] and 100 iterations. *)

Module Reference.

Definition cos_series (x : float) : float :=
  let x2 := fmul x x in
  fadd 1 (fmul x2 (fadd (fdiv (-1) 2)
           (fmul x2 (fadd (fdiv 1 24) (fmul x2 (fdiv (-1) 720)))))).

Definition sin_series (x : float) : float :=
  let x2 := fmul x x in
  fmul x (fadd 1 (fmul x2 (fadd (fdiv (-1) 6) (fmul x2 (fdiv 1 120))))).

Definition arctan_series (x : float) : float :=
  let x2 := fmul x x in
  fmul x (fadd 1 (fmul x2 (fadd (fdiv (-1) 3)
           (fmul x2 (fadd (fdiv 1 5) (fmul x2 (fdiv (-1) 7))))))).

Definition numpy : Numpy :=
  Build_Numpy cos_series sin_series arctan_series.

Definition pressure : PressureField :=
  Build_PressureField (fun half x0 => vmap (fun _ => 0.01%py) half).

Definition defaults : Defaults := Build_Defaults 0.00001 100.

End Reference.

(** ** Vocabulary of the statements *)

(** Zero or not-a-number. *)
Definition zero_or_nan (x : float) : bool := is_zero x || is_nan x.

(** An infinity or not-a-number. *)
Definition inf_or_nan (x : float) : bool :=
  match x with
  | S754_infinity _ | S754_nan => true
  | _ => false
  end.

(** Some element of a value satisfies [p]. *)
Definition vexistsb (p : float -> bool) (a : val) : bool :=
  match a with
  | Scalar x => p x
  | Arr l => existsb p l
  end.

(** The element of a value at position [i], a scalar or a one-element array
    being stretched over every position. *)
Definition elt (a : val) (i : nat) : float :=
  match a with
  | Scalar x => x
  | Arr [x] => x
  | Arr l => nth i l nan
  end.

(** Position [i] addresses an element of the value. *)
Definition within (a : val) (i : nat) : Prop :=
  match a with
  | Scalar _ => True
  | Arr l => length l = 1%nat \/ (i < length l)%nat
  end.

(** Expression [e], when it evaluates, has the number [x] at position [i];
    [W] collects the facts that [i] addresses its operands as well. *)
Definition elem (e : ex) (i : nat) (x : float) (W : Prop) : Prop :=
  forall r, e = Some r -> within r i -> elt r i = x /\ W.

(** The shape two operands broadcast to, when they do. *)
Definition bshape (s1 s2 : option nat) : option (option nat) :=
  match s1, s2 with
  | None, s | s, None => Some s
  | Some n, Some m =>
      if Nat.eqb n 1 then Some (Some m)
      else if Nat.eqb m 1 then Some (Some n)
      else if Nat.eqb n m then Some (Some n)
      else None
  end.

(** Expression [e] evaluates to a value of shape [s]. *)
Definition has_shape (e : ex) (s : option nat) : Prop :=
  exists v, e = Some v /\ shape v = s.

(** The formulas of the specification, on numbers. *)
Module Spec.
Section Formulas.
Context {np : Numpy}.

Definition sq (x : float) : float := fmul x x.
Definition cube (x : float) : float := fmul (fmul x x) x.

(** Section 4.2, with [k = Ctprime * cos(yaw)^2]. *)
Definition k (Ctprime yaw : float) : float := fmul Ctprime (sq (np_cos yaw)).
Definition an (Ctprime yaw : float) : float :=
  fdiv (k Ctprime yaw) (fadd 4 (k Ctprime yaw)).
Definition u4 (Ctprime yaw : float) : float :=
  fdiv (fsub 4 (k Ctprime yaw)) (fadd 4 (k Ctprime yaw)).
Definition v4 (Ctprime yaw : float) : float :=
  fdiv (fopp (fmul (fmul (fmul 4 Ctprime) (np_sin yaw)) (sq (np_cos yaw))))
       (sq (fadd 4 (k Ctprime yaw))).

(** Section 3, the derived coefficients. *)
Definition Ct (Ctprime an yaw : float) : float :=
  fmul (fmul Ctprime (sq (fsub 1 an))) (sq (np_cos yaw)).
Definition Cp (Ctprime an yaw : float) : float :=
  fmul Ctprime (cube (fmul (fsub 1 an) (np_cos yaw))).
Definition x0 (an u4 yaw beta : float) : float :=
  fdiv (fmul (np_cos yaw)
             (fsqrt (fdiv (fmul (fsub 1 an) (np_cos yaw)) (fadd 1 u4))))
       (fmul (fdiv 2 (fadd 1 u4)) (fdiv (fmul beta (fsub 1 u4)) 2)).
End Formulas.
End Spec.

(** The mathematical library is exact at the angle 0. *)
Definition exact_at_zero (np : Numpy) : Prop :=
  np_cos 0 = 1%py /\ np_sin 0 = 0%py.

(** The pressure field answers one-element arrays with a one-element array. *)
Definition one_per_element (pf : PressureField) : Prop :=
  forall h x0, exists g, get_pressure (Arr [h]) (Arr [x0]) = Arr [g].

(** States of the iterations, by the shape of their unknowns. *)

(** Every unknown has shape [s]. *)
Definition shaped (s : option nat) (x : state) : Prop :=
  Forall (fun a => shape a = s) x.

(** Three numbers. *)
Definition scalars3 (x : state) : Prop :=
  exists a u v : float, x = [Scalar a; Scalar u; Scalar v].

(** Four one-element arrays. *)
Definition singles4 (x : state) : Prop :=
  exists a u v p : float, x = [Arr [a]; Arr [u]; Arr [v]; Arr [p]].

(** Five one-element arrays, the first one not-a-number. *)
Definition singles5_nan (x : state) : Prop :=
  exists u v p c : float, x = [Arr [nan]; Arr [u]; Arr [v]; Arr [p]; Arr [c]].

(** Five one-element arrays, the last two zero: the thrust-based initial
    guess at [Ct = 0]. *)
Definition singles5_zero (x : state) : Prop :=
  exists a u v : float, x = [Arr [a]; Arr [u]; Arr [v]; Arr [zero]; Arr [zero]].

(** Three unknowns, the lateral velocity zero or not-a-number in every
    element; and zero in every element. *)
Definition v4_zero_or_nan (x : state) : Prop :=
  exists a u v, x = [a; u; v] /\ vforallb zero_or_nan v = true.

Definition v4_zero (x : state) : Prop :=
  exists a u v, x = [a; u; v] /\ vforallb is_zero v = true.

(** ** [TangentialInduction]: the tangential-induction models

    [MITRotor/TangentialInduction.py].  The rotor grid's arrays are taken
    flattened to one dimension; every operation of the two models is
    element by element. *)

Module TangentialInduction.

(** The attributes of [AerodynamicProperties] and of [BEMGeometry] that the
    models read; the two classes are declared in [MITRotor/Aerodynamics.py]
    and [MITRotor/Geometry.py], which are not among the sources. *)
Record AerodynamicProperties : Type := mkAero {
  an : val;
  W : val;
  Ctan : val;
  solidity : val
}.

Record BEMGeometry : Type := mkGeometry {
  mu_mesh : val
}.

(** [np.maximum] on two values. *)
Definition maximum : ex -> ex -> ex := bop fmaximum.

Section Model.
Context {np : Numpy} {RotorDefinition : Type}.

(** [NoTangentialInduction.__call__]. *)
Definition NoTangentialInduction (aero_props : AerodynamicProperties)
    (pitch tsr yaw : val) (rotor : RotorDefinition) (geom : BEMGeometry) : M val :=
  ret (zeros_like (an aero_props)).

(** [DefaultTangentialInduction.__call__]. *)
Definition DefaultTangentialInduction (aero_props : AerodynamicProperties)
    (pitch tsr yaw : val) (rotor : RotorDefinition) (geom : BEMGeometry) : M val :=
  tangential_integral <- eval (W aero_props ^ 2 * Ctan aero_props) ;;
  aprime <- eval (solidity aero_props
                  / (4 * maximum (mu_mesh geom) 0.1 ^ 2 * tsr
                     * (1 - an aero_props) * cos yaw)
                  * tangential_integral) ;;
  ret aprime.
End Model.

(** The formula of [DefaultTangentialInduction] on numbers. *)
Definition aprime {np : Numpy} (solidity mu tsr an yaw W Ctan : float) : float :=
  fmul (fdiv solidity
          (fmul (fmul (fmul (fmul 4 (Spec.sq (fmaximum mu 0.1))) tsr) (fsub 1 an))
                (np_cos yaw)))
       (fmul (Spec.sq W) Ctan).

End TangentialInduction.

(** Not below zero: a zero, a positive number or not-a-number. *)
Definition not_negative (x : float) : bool := negb (fltb x zero).

(** * Properties *)

(** ** Elements of values *)

Lemma nth_zip_with op l1 l2 i :
  length l1 = length l2 -> (i < length l1)%nat ->
  nth i (zip_with op l1 l2) nan = op (nth i l1 nan) (nth i l2 nan).
Proof.
  revert l2 i; induction l1 as [|x l1 IH]; intros [|y l2] i Hl Hi;
    simpl in *; try lia; try discriminate.
  destruct i; [reflexivity|]. apply IH; lia.
Qed.

Lemma length_zip_with op l1 l2 :
  length l1 = length l2 -> length (zip_with op l1 l2) = length l1.
Proof.
  revert l2; induction l1 as [|x l1 IH]; intros [|y l2] Hl;
    simpl in *; try discriminate; auto.
Qed.

Lemma nth_map_nan (f : float -> float) l i :
  (i < length l)%nat -> nth i (map f l) nan = f (nth i l nan).
Proof.
  intro Hi. rewrite (nth_indep _ nan (f nan)) by (rewrite length_map; exact Hi).
  apply map_nth.
Qed.

Lemma within_Arr_map f l i : within (Arr (map f l)) i <-> within (Arr l) i.
Proof. unfold within. rewrite length_map. tauto. Qed.

Lemma elt_Arr_map f l i :
  within (Arr l) i -> elt (Arr (map f l)) i = f (elt (Arr l) i).
Proof.
  destruct l as [|x [|y l]]; simpl; intros [H|H]; try discriminate; try lia; auto.
  - destruct i; [reflexivity|]. destruct i; [reflexivity|].
    apply (nth_map_nan f l). simpl in H. lia.
Qed.

Lemma elt_vmap f a i : within a i -> elt (vmap f a) i = f (elt a i).
Proof. destruct a; [reflexivity|]. apply elt_Arr_map. Qed.

Lemma within_vmap f a i : within (vmap f a) i <-> within a i.
Proof. destruct a; [tauto|]. apply within_Arr_map. Qed.

(** The element-by-element reading of broadcasting. *)
Lemma broadcast_elt op a b r i :
  broadcast op a b = Some r -> within r i ->
  elt r i = op (elt a i) (elt b i) /\ within a i /\ within b i.
Proof.
  destruct a as [x|l1], b as [y|l2]; unfold broadcast.
  - intros [= E] _. subst r. simpl. auto.
  - intros [= E] Hw. subst r. apply within_Arr_map in Hw.
    rewrite elt_Arr_map by exact Hw. simpl. auto.
  - intros [= E] Hw. subst r. apply within_Arr_map in Hw.
    rewrite (elt_Arr_map (fun a => op a y)) by exact Hw. simpl. auto.
  - destruct l1 as [|x1 [|x1' l1]].
    + destruct l2 as [|y [|y' l2]]; simpl; intros [= E]; subst r;
        intros [H|H]; simpl in H; try discriminate; lia.
    + intros [= E] Hw. subst r. apply within_Arr_map in Hw.
      rewrite elt_Arr_map by exact Hw.
      split; [reflexivity|]. split; [left; reflexivity|exact Hw].
    + destruct l2 as [|y [|y' l2]].
      * simpl. discriminate.
      * intros [= E] Hw. subst r.
        apply (within_Arr_map (fun a => op a y) (x1 :: x1' :: l1)) in Hw.
        split; [|split; [exact Hw|left; reflexivity]].
        apply (elt_Arr_map (fun a => op a y) (x1 :: x1' :: l1)). exact Hw.
      * destruct (Nat.eqb_spec (length (x1 :: x1' :: l1)) (length (y :: y' :: l2)))
          as [He|He]; [|discriminate].
        intros [= E] Hw. subst r.
        assert (Hi : (i < length (x1 :: x1' :: l1))%nat).
        { destruct Hw as [Hw|Hw]; simpl in Hw; [discriminate|].
          rewrite (length_zip_with op l1 l2) in Hw by (simpl in He; lia).
          simpl. lia. }
        split; [|split; right; [exact Hi|rewrite <- He; exact Hi]].
        change (nth i (zip_with op (x1 :: x1' :: l1) (y :: y' :: l2)) nan
                = op (nth i (x1 :: x1' :: l1) nan) (nth i (y :: y' :: l2) nan)).
        apply nth_zip_with; assumption.
Qed.

Lemma vforallb_elt p a :
  vforallb p a = true <-> (forall i, within a i -> p (elt a i) = true).
Proof.
  destruct a as [x|l]; simpl.
  - split; [auto|]. intro H. apply (H 0%nat I).
  - destruct l as [|x [|y l]].
    + split; [|reflexivity]. intros _ i [H|H]; simpl in H; [discriminate|lia].
    + simpl. rewrite andb_true_r. split; [auto|]. intro H. apply (H 0%nat). left; reflexivity.
    + rewrite forallb_forall. split.
      * intros H i [Hi|Hi]; [simpl in Hi; discriminate|].
        apply H. apply nth_In. exact Hi.
      * intros H z Hz. destruct (In_nth _ _ nan Hz) as (i & Hi & <-).
        apply (H i). right. exact Hi.
Qed.

(** ** Elements of expressions *)

Lemma elem_pure v i : elem (pure v) i (elt v i) (within v i).
Proof. intros r [= E] Hw. subst r. auto. Qed.

Lemma elem_bop op e1 e2 i x y W1 W2 :
  elem e1 i x W1 -> elem e2 i y W2 -> elem (bop op e1 e2) i (op x y) (W1 /\ W2).
Proof.
  intros H1 H2 r E Hw. destruct e1 as [a|], e2 as [b|]; try discriminate.
  simpl in E. destruct (broadcast_elt op a b r i E Hw) as (Hr & Ha & Hb). rewrite Hr.
  destruct (H1 a eq_refl Ha) as [<- ?], (H2 b eq_refl Hb) as [<- ?]. auto.
Qed.

Lemma elem_uop f e i x W : elem e i x W -> elem (uop f e) i (f x) W.
Proof.
  intros H r E Hw. destruct e as [a|]; [|discriminate].
  simpl in E. injection E as E. subst r. apply within_vmap in Hw.
  rewrite elt_vmap by exact Hw. destruct (H a eq_refl Hw) as [<- ?]. auto.
Qed.

Lemma elem_use e i x W r : elem e i x W -> e = Some r -> within r i -> elt r i = x /\ W.
Proof. intros H E Hw. exact (H r E Hw). Qed.

Ltac elem_steps :=
  unfold sqrt, cos, sin, arctan, pow;
  repeat first [ eapply elem_bop | eapply elem_uop | eapply elem_pure ].

(** ** Statements *)

Lemma bind_Some A B (m : M A) (k : A -> M B) b l :
  bind m k = Some (b, l) ->
  exists a l1 l2, m = Some (a, l1) /\ k a = Some (b, l2) /\ l = l1 ++ l2.
Proof.
  unfold bind. destruct m as [[a l1]|]; [|discriminate].
  destruct (k a) as [[b' l2]|] eqn:E; [|discriminate].
  intros [= E1 E2]. subst. exists a, l1, l2. auto.
Qed.

Lemma ret_Some A (a b : A) l : ret a = Some (b, l) -> a = b /\ l = [].
Proof. intros [= E1 E2]. subst. auto. Qed.

Lemma eval_Some e v l : eval e = Some (v, l) -> e = Some v /\ l = [].
Proof. destruct e; [|discriminate]. intros [= E1 E2]. subst. auto. Qed.

Lemma lift_Some A (o : option A) a l : lift o = Some (a, l) -> o = Some a /\ l = [].
Proof. destruct o; [|discriminate]. intros [= E1 E2]. subst. auto. Qed.

Lemma np_array_Some l s lg :
  np_array l = Some (s, lg) -> s = l /\ lg = [] /\ uniform l = true.
Proof.
  unfold np_array. destruct (uniform l); [|discriminate].
  intros [= E1 E2]. subst. auto.
Qed.

(** Inversion of a successful sequence of statements, one step at a time:
    the first statement returned [a] with the calls [l1], the rest [l2]. *)
Tactic Notation "binv" hyp(H) "as" ident(a) ident(l1) ident(l2) ident(E) ident(K) :=
  let L := fresh "L" in
  apply bind_Some in H; destruct H as (a & l1 & l2 & E & K & L);
  try (rewrite L in *; clear L).

(** ** The engine *)

Lemma update_Some relax x r x' l :
  update relax x r = Some (x', l) ->
  l = [] /\ length x' = length x /\ length r = length x.
Proof.
  revert r x' l; induction x as [|xi x IH]; intros [|ri r] x' l H; cbn [update] in H;
    try discriminate.
  - injection H as <- <-. auto.
  - binv H as y ly ly' Ey H. apply eval_Some in Ey as [_ ->].
    binv H as ys lys lys' Eys H. apply IH in Eys as (-> & Hx & Hr).
    apply ret_Some in H as [<- ->]. cbn [length app]. auto.
Qed.

Lemma update_cons relax xi x ri r x' l :
  update relax (xi :: x) (ri :: r) = Some (x', l) ->
  exists y ys, x' = y :: ys /\ bop fadd xi (bop fmul (Scalar relax) ri) = Some y
               /\ update relax x r = Some (ys, []).
Proof.
  cbn [update]. intro H.
  binv H as y ly ly' Ey H. apply eval_Some in Ey as [Ey _].
  binv H as ys lys lys' Eys H. apply ret_Some in H as [<- _].
  pose proof (update_Some _ _ _ _ _ Eys) as (-> & _ & _). eauto.
Qed.

Lemma iterate_length f relax eps fuel : forall n x res l,
  iterate f relax eps fuel n x = Some (res, l) -> length (Utilities.x res) = length x.
Proof.
  induction fuel as [|fuel IH]; intros n x res l H; cbn [iterate] in H.
  - injection H as <- <-. reflexivity.
  - binv H as r lr lr' Er H. binv H as x' lu lu' Eu H.
    apply update_Some in Eu as (_ & Hx & _).
    destruct (below eps r).
    + injection H as <- <-. cbn [Utilities.x]. exact Hx.
    + apply IH in H. congruence.
Qed.

(** An invariant [I] of the update is an invariant of the iteration, and a
    property [Q] the update establishes when the residual is below the
    tolerance holds of a converged result. *)
Lemma iterate_invariant (I Q : state -> Prop) f relax eps :
  (forall x r l x', I x -> f x = Some (r, l) -> update relax x r = Some (x', []) ->
                    I x' /\ (below eps r = true -> Q x')) ->
  forall fuel n x res l,
    I x -> iterate f relax eps fuel n x = Some (res, l) ->
    I (Utilities.x res) /\ (converged res = true -> Q (Utilities.x res)).
Proof.
  intros Hstep. induction fuel as [|fuel IH]; intros n x res l Hx H; cbn [iterate] in H.
  - injection H as <- <-. cbn. split; [exact Hx|discriminate].
  - binv H as r lr lr' Er H. binv H as x' lu lu' Eu H.
    pose proof (update_Some _ _ _ _ _ Eu) as (-> & _ & _).
    destruct (Hstep _ _ _ _ Hx Er Eu) as [HI HQ].
    destruct (below eps r) eqn:Hb.
    + injection H as <- <-. cbn. auto.
    + eapply IH; eauto.
Qed.

(** When the residual is defined on the states of [I] and never below the
    tolerance there, the iteration spends all its evaluations. *)
Lemma iterate_stuck (I : state -> Prop) f relax eps :
  (forall x, I x -> exists r l x',
      f x = Some (r, l) /\ update relax x r = Some (x', []) /\
      below eps r = false /\ I x') ->
  forall fuel n x, I x ->
    exists res l, iterate f relax eps fuel n x = Some (res, l) /\
                  converged res = false /\ niter res = (n + fuel)%nat /\
                  I (Utilities.x res).
Proof.
  intros Hstep. induction fuel as [|fuel IH]; intros n x Hx; simpl.
  - eexists _, _. split; [reflexivity|]. simpl. repeat split; auto.
  - destruct (Hstep x Hx) as (r & l & x' & Hf & Hu & Hb & Hx').
    destruct (IH (S n) x' Hx') as (res & l' & Hi & Hc & Hn & HI).
    exists res, (l ++ l'). rewrite Hf. simpl. rewrite Hu. simpl.
    rewrite Hb, Hi. simpl. repeat split; auto. lia.
Qed.

(** The calls of an iteration, when every evaluation of the residual makes
    [k] of them. *)
Lemma iterate_calls f relax eps (k : nat) :
  (forall x r l, f x = Some (r, l) -> length l = k) ->
  forall fuel n x res l,
    iterate f relax eps fuel n x = Some (res, l) ->
    length l = ((niter res - n) * k)%nat /\ (n <= niter res)%nat.
Proof.
  intros Hf. induction fuel as [|fuel IH]; intros n x res l H; cbn [iterate] in H.
  - injection H as <- <-. cbn [niter length]. rewrite Nat.sub_diag. split; [reflexivity|lia].
  - binv H as r lr lr' Er H. binv H as x' lu lu' Eu H.
    pose proof (update_Some _ _ _ _ _ Eu) as (-> & _ & _).
    apply Hf in Er. rewrite !length_app, Er. cbn [length].
    destruct (below eps r).
    + injection H as <- <-. cbn [niter length].
      replace (S n - n)%nat with 1%nat by lia. split; lia.
    + apply IH in H as [Hl Hn]. rewrite Hl. split; [|lia].
      replace (niter res - n)%nat with (S (niter res - S n)) by lia.
      cbn [Nat.mul]. lia.
Qed.

(** ** Shapes of expressions *)

Lemma shape_broadcast op a b s :
  bshape (shape a) (shape b) = Some s ->
  exists r, broadcast op a b = Some r /\ shape r = s.
Proof.
  destruct a as [x|l1], b as [y|l2]; cbn [shape bshape broadcast].
  - intros [= E]. subst s. eauto.
  - intros [= E]. subst s. eexists; split; [reflexivity|]. cbn [shape]. now rewrite length_map.
  - intros [= E]. subst s. eexists; split; [reflexivity|]. cbn [shape]. now rewrite length_map.
  - destruct l1 as [|x1 [|x1' l1]].
    + destruct l2 as [|y [|y' l2]]; cbn [length Nat.eqb]; intros [= E]; subst s; eauto.
    + cbn [length Nat.eqb]. intros [= E]. subst s.
      eexists; split; [reflexivity|]. cbn [shape]. now rewrite length_map.
    + destruct l2 as [|y [|y' l2]]; cbn [length Nat.eqb].
      * discriminate.
      * intros [= E]. subst s. eexists; split; [reflexivity|].
        cbn [shape]. now rewrite length_map.
      * destruct (Nat.eqb_spec (length l1) (length l2)) as [He|He]; [|discriminate].
        intros [= E]. subst s. eexists; split; [reflexivity|].
        cbn [shape]. f_equal. apply (length_zip_with op (x1 :: x1' :: l1) (y :: y' :: l2)).
        simpl. now rewrite He.
Qed.

Lemma has_shape_pure v : has_shape (pure v) (shape v).
Proof. exists v. auto. Qed.

Lemma has_shape_bop op e1 e2 s1 s2 s :
  has_shape e1 s1 -> has_shape e2 s2 -> bshape s1 s2 = Some s ->
  has_shape (bop op e1 e2) s.
Proof.
  intros (a & -> & <-) (b & -> & <-) H. apply (shape_broadcast op) in H. exact H.
Qed.

Lemma has_shape_uop f e s : has_shape e s -> has_shape (uop f e) s.
Proof.
  intros (a & -> & <-). exists (vmap f a). split; [reflexivity|].
  destruct a; cbn [vmap shape]; [reflexivity|]. now rewrite length_map.
Qed.

Lemma bshape_None_r s : bshape s None = Some s.
Proof. destruct s; reflexivity. Qed.

Lemma bshape_None_l s : bshape None s = Some s.
Proof. reflexivity. Qed.

Lemma bshape_diag s : bshape s s = Some s.
Proof.
  destruct s as [n|]; [|reflexivity]. cbn [bshape].
  destruct (Nat.eqb n 1); [reflexivity|]. now rewrite Nat.eqb_refl.
Qed.

Lemma bshape_cases s1 s2 s :
  bshape s1 s2 = Some s ->
  bshape s2 s1 = Some s /\ bshape s1 s = Some s /\ bshape s s1 = Some s /\
  bshape s2 s = Some s /\ bshape s s2 = Some s.
Proof.
  destruct s1 as [n|], s2 as [m|]; cbn [bshape].
  - destruct (Nat.eqb_spec n 1) as [->|Hn].
    + intros [= E]. subst s. cbn [bshape Nat.eqb].
      destruct (Nat.eqb_spec m 1) as [->|Hm]; cbn [Nat.eqb]; rewrite ?Nat.eqb_refl; auto.
    + destruct (Nat.eqb_spec m 1) as [->|Hm].
      * intros [= E]. subst s. cbn [bshape Nat.eqb].
        destruct (Nat.eqb_spec n 1); [contradiction|]. rewrite ?Nat.eqb_refl; auto.
      * destruct (Nat.eqb_spec n m) as [->|Hnm]; [|discriminate].
        intros [= E]. subst s. cbn [bshape].
        destruct (Nat.eqb_spec m 1); [contradiction|]. rewrite ?Nat.eqb_refl; auto.
  - intros [= E]. subst s. cbn [bshape]. rewrite Nat.eqb_refl.
    destruct (Nat.eqb n 1); auto.
  - intros [= E]. subst s. cbn [bshape]. rewrite Nat.eqb_refl.
    destruct (Nat.eqb m 1); auto.
  - intros [= E]. subst s. auto.
Qed.

Lemma bshape_sym s1 s2 s : bshape s1 s2 = Some s -> bshape s2 s1 = Some s.
Proof. intro H. apply (bshape_cases _ _ _ H). Qed.
Lemma bshape_l1 s1 s2 s : bshape s1 s2 = Some s -> bshape s1 s = Some s.
Proof. intro H. apply (bshape_cases _ _ _ H). Qed.
Lemma bshape_l2 s1 s2 s : bshape s1 s2 = Some s -> bshape s s1 = Some s.
Proof. intro H. apply (bshape_cases _ _ _ H). Qed.
Lemma bshape_r1 s1 s2 s : bshape s1 s2 = Some s -> bshape s2 s = Some s.
Proof. intro H. apply (bshape_cases _ _ _ H). Qed.
Lemma bshape_r2 s1 s2 s : bshape s1 s2 = Some s -> bshape s s2 = Some s.
Proof. intro H. apply (bshape_cases _ _ _ H). Qed.

Create HintDb bshape.
#[export] Hint Resolve bshape_None_r bshape_None_l bshape_diag : bshape.
#[export] Hint Resolve bshape_sym bshape_l1 bshape_l2 bshape_r1 bshape_r2 : bshape.

Ltac shape_steps :=
  unfold sqrt, cos, sin, arctan, pow;
  repeat first [ eapply has_shape_uop | eapply has_shape_pure | eapply has_shape_bop ];
  cbn [shape].

(** ** Numbers *)

Lemma fmul_zero_finite x : is_finite x = true -> is_zero (fmul 0 x) = true.
Proof. destruct x; try discriminate; reflexivity. Qed.

(** ** The closed-form model *)

Section ClosedForm.
Context {np : Numpy}.

(** A successful run of [LimitedHeck.solve], statement by statement. *)
Lemma LimitedHeck_solve_Some Ctprime yaw sol lg :
  LimitedHeck.solve Ctprime yaw = Some (sol, lg) ->
  exists a u4 v4 dp,
    (Ctprime * cos yaw ^ 2 / (4 + Ctprime * cos yaw ^ 2))%py = Some a /\
    ((4 - Ctprime * cos yaw ^ 2) / (4 + Ctprime * cos yaw ^ 2))%py = Some u4 /\
    (- (4 * Ctprime * sin yaw * cos yaw ^ 2)
     / (4 + Ctprime * cos yaw ^ 2) ^ 2)%py = Some v4 /\
    (0.0 * a)%py = Some dp /\
    sol = MomentumSolution.make Ctprime yaw a u4 v4 dp /\ lg = [].
Proof.
  unfold LimitedHeck.solve. intro H.
  binv H as a la la' Ea H. apply eval_Some in Ea as [Ea ->].
  binv H as u4 lu lu' Eu H. apply eval_Some in Eu as [Eu ->].
  binv H as v4 lv lv' Ev H. apply eval_Some in Ev as [Ev ->].
  binv H as dp ld ld' Ed H. apply eval_Some in Ed as [Ed ->].
  apply ret_Some in H as [<- ->].
  exists a, u4, v4, dp. auto 10.
Qed.

Lemma LimitedHeck_solve_total Ctprime yaw s :
  bshape (shape Ctprime) (shape yaw) = Some s ->
  exists sol, LimitedHeck.solve Ctprime yaw = Some (sol, []) /\
              shape (MomentumSolution.an sol) = s /\
              shape (MomentumSolution.u4 sol) = s /\
              shape (MomentumSolution.v4 sol) = s /\
              shape (MomentumSolution.dp sol) = s.
Proof.
  intro Hs. unfold LimitedHeck.solve.
  assert (Ha : has_shape (Ctprime * cos yaw ^ 2 / (4 + Ctprime * cos yaw ^ 2))%py s)
    by (shape_steps; eauto with bshape).
  assert (Hu : has_shape ((4 - Ctprime * cos yaw ^ 2) / (4 + Ctprime * cos yaw ^ 2))%py s)
    by (shape_steps; eauto with bshape).
  assert (Hv : has_shape (- (4 * Ctprime * sin yaw * cos yaw ^ 2)
                          / (4 + Ctprime * cos yaw ^ 2) ^ 2)%py s)
    by (shape_steps; eauto with bshape).
  destruct Ha as (a & -> & Ha), Hu as (u & -> & Hu), Hv as (v & -> & Hv).
  assert (Hd : has_shape (0.0 * a)%py s)
    by (shape_steps; rewrite Ha; eauto with bshape).
  destruct Hd as (d & Ed & Hd). cbn [eval ret bind app].
  rewrite Ed. cbn [eval ret bind app]. eexists. split; [reflexivity|]. auto.
Qed.
End ClosedForm.






(** ** States of one shape *)

Lemma shape_eqb_refl s : shape_eqb s s = true.
Proof. destruct s; cbn; [apply Nat.eqb_refl|reflexivity]. Qed.

Lemma uniform_shaped s x : shaped s x -> uniform x = true.
Proof.
  destruct x as [|a x]; [reflexivity|]. intro H. inversion H as [|? ? Ha Hx]; subst.
  cbn [uniform]. apply forallb_forall. intros b Hb.
  rewrite (proj1 (Forall_forall _ _) Hx b Hb). apply shape_eqb_refl.
Qed.

Lemma update_shaped relax s x r :
  shaped s x -> shaped s r -> length r = length x ->
  exists x', update relax x r = Some (x', []) /\ shaped s x'.
Proof.
  revert r; induction x as [|xi x IH]; intros [|ri r] Hx Hr Hl; try discriminate.
  - exists []. split; [reflexivity|constructor].
  - inversion Hx as [|? ? Hxi Hx']; inversion Hr as [|? ? Hri Hr']; subst.
    destruct (IH r Hx' Hr') as (x' & Hu & Hs'); [simpl in Hl; lia|].
    assert (Hy : has_shape (xi + Scalar relax * ri)%py (shape xi)).
    { shape_steps; rewrite ?Hri; eauto with bshape. }
    destruct Hy as (y & Ey & Hy). exists (y :: x'). cbn [update].
    rewrite Ey. cbn [eval bind ret]. rewrite Hu. cbn [bind ret app].
    split; [reflexivity|]. constructor; assumption.
Qed.

Lemma shape_vmap f a : shape (vmap f a) = shape a.
Proof. destruct a; cbn [vmap shape]; [reflexivity|]. now rewrite length_map. Qed.

Lemma nan_like_shaped s x :
  shaped s x ->
  nan_like x = Some (map (fun a => vmap (fmul nan) (zeros_like a)) x, []).
Proof.
  intro H. unfold nan_like, np_array.
  rewrite (uniform_shaped s).
  - cbn [bind ret app]. now rewrite map_map.
  - unfold shaped in *. rewrite Forall_map. revert H. apply Forall_impl.
    intros a <-. apply shape_vmap.
Qed.

(** ** The iterative model *)

Section Iterative.
Context {np : Numpy} {d : Defaults}.

(** A run of [Heck.solve] that returns, statement by statement. *)
Lemma Heck_solve_Some Ctprime yaw x0 eps sol lg :
Heck.solve Ctprime yaw x0 eps = Some (sol, lg) ->
exists x0' l0 relax res l1 a u4 v4,
  match x0 with
  | None => Heck.initial_condition Ctprime yaw
  | Some x0 => ret x0
  end = Some (x0', l0) /\
  Heck.relaxation Ctprime = Some (relax, []) /\
  fixedpointiteration (fun x => Heck.residual x Ctprime yaw) x0'
    (Some (match eps with Some e => e | None => 0.00001%py end)) None relax
  = Some (res, l1) /\
  (if converged res then ret (Utilities.x res) else nan_like x0')
  = Some ([a; u4; v4], []) /\
  sol = MomentumSolution.mk Ctprime yaw a u4 v4 (zeros_like a) 0%py
          (niter res) (converged res) 0%py /\
  lg = l0 ++ l1.
Proof.
unfold Heck.solve. intro H.
binv H as x0' l0 l0' E0 H.
binv H as relax lr lr' Er H.
binv H as res l1 l1' Ei H.
binv H as s ls ls' Es H.
assert (lr = []) as ->.
{ unfold Heck.relaxation in Er. binv Er as m lm lm' Em Er.
  apply lift_Some in Em as [_ ->]. apply ret_Some in Er as [_ ->]. reflexivity. }
assert (ls = []) as ->.
{ destruct (converged res).
  - apply ret_Some in Es as [_ ->]. reflexivity.
  - unfold nan_like in Es. binv Es as z lz lz' Ez Es.
    apply np_array_Some in Ez as (_ & -> & _).
    apply ret_Some in Es as [_ ->]. reflexivity. }
destruct s as [|a [|u4 [|v4 [|]]]]; try discriminate.
apply ret_Some in H as [<- ->].
exists x0', l0, relax, res, l1, a, u4, v4. rewrite !app_nil_r. cbn [app]. auto 10.
Qed.
End Iterative.

Section IterativeTotal.
Context {np : Numpy} {d : Defaults}.

Lemma shaped3 s x :
shaped s x -> length x = 3%nat ->
exists a u4 v4, x = [a; u4; v4] /\ shape a = s /\ shape u4 = s /\ shape v4 = s.
Proof.
destruct x as [|a [|u4 [|v4 [|]]]]; try discriminate. intros H _.
inversion H as [|? ? Ha Hx1]; inversion Hx1 as [|? ? Hu Hx2];
  inversion Hx2 as [|? ? Hv Hx3]; subst. eauto 10.
Qed.

Lemma Heck_initial_condition_shaped Ctprime yaw s :
bshape (shape Ctprime) (shape yaw) = Some s ->
exists x0, Heck.initial_condition Ctprime yaw = Some (x0, []) /\
           shaped s x0 /\ length x0 = 3%nat.
Proof.
intro Hs. unfold Heck.initial_condition.
destruct (LimitedHeck_solve_total Ctprime yaw s Hs) as (sol & -> & Ha & Hu & Hv & _).
cbn [bind ret app]. eexists. split; [reflexivity|].
split; [|reflexivity]. repeat constructor; assumption.
Qed.

Lemma Heck_residual_shaped Ctprime yaw s x :
bshape (shape Ctprime) (shape yaw) = Some s ->
shaped s x -> length x = 3%nat ->
exists r, Heck.residual x Ctprime yaw = Some (r, []) /\
          shaped s r /\ length r = 3%nat.
Proof.
intros Hs Hx Hl. destruct (shaped3 s x Hx Hl) as (a & u4 & v4 & -> & Ha & Hu & Hv).
unfold Heck.residual.
assert (H1 : has_shape (1 - sqrt (1 - u4 ^ 2 - v4 ^ 2)
                            / (sqrt Ctprime * cos yaw) - a)%py s)
  by (shape_steps; rewrite ?Ha, ?Hu, ?Hv; eauto with bshape).
assert (H2 : has_shape ((1 - 0.5 * Ctprime * (1 - a) * cos yaw ^ 2) - u4)%py s)
  by (shape_steps; rewrite ?Ha, ?Hu, ?Hv; eauto with bshape).
assert (H3 : has_shape (-0.25 * Ctprime * (1 - a) ^ 2 * sin yaw * cos yaw ^ 2 - v4)%py s)
  by (shape_steps; rewrite ?Ha, ?Hu, ?Hv; eauto with bshape).
destruct H1 as (e1 & -> & H1), H2 as (e2 & -> & H2), H3 as (e3 & -> & H3).
cbn [eval bind ret app]. unfold np_array.
rewrite (uniform_shaped s) by (repeat constructor; assumption).
cbn [bind ret app]. eexists. split; [reflexivity|].
split; [|reflexivity]. repeat constructor; assumption.
Qed.

Lemma Heck_iterate_shaped Ctprime yaw s relax eps fuel n x :
bshape (shape Ctprime) (shape yaw) = Some s ->
shaped s x -> length x = 3%nat ->
exists res, iterate (fun x => Heck.residual x Ctprime yaw) relax eps fuel n x
            = Some (res, []) /\
            shaped s (Utilities.x res) /\ length (Utilities.x res) = 3%nat.
Proof.
intros Hs. revert n x. induction fuel as [|fuel IH]; intros n x Hx Hl; cbn [iterate].
- eexists. split; [reflexivity|]. auto.
- destruct (Heck_residual_shaped Ctprime yaw s x Hs Hx Hl) as (r & -> & Hr & Hlr).
  destruct (update_shaped relax s x r Hx Hr) as (x' & Hu & Hx'); [congruence|].
  cbn [bind]. rewrite Hu. cbn [bind app].
  assert (Hl' : length x' = 3%nat).
  { apply update_Some in Hu as (_ & -> & _). exact Hl. }
  destruct (below eps r).
  + eexists. split; [reflexivity|]. auto.
  + destruct (IH (S n) x' Hx' Hl') as (res & -> & HI). eexists. split; [reflexivity|]. exact HI.
Qed.

(** [Heck.solve] returns for every loading with a largest element and every
  yaw that broadcasts with it. *)
Lemma Heck_solve_total Ctprime yaw s m eps :
bshape (shape Ctprime) (shape yaw) = Some s ->
np_max Ctprime = Some m ->
exists sol, Heck.solve Ctprime yaw None eps = Some (sol, []) /\
            shape (MomentumSolution.an sol) = s.
Proof.
intros Hs Hm. unfold Heck.solve, Heck.relaxation, fixedpointiteration.
destruct (Heck_initial_condition_shaped Ctprime yaw s Hs) as (x0 & -> & Hx0 & Hl0).
rewrite Hm. cbn [lift bind ret app].
match goal with |- context [iterate ?f ?r ?e ?k ?n x0] =>
  destruct (Heck_iterate_shaped Ctprime yaw s r e k n x0 Hs Hx0 Hl0)
    as (res & -> & Hres & Hlres)
end.
cbn [bind app].
destruct (converged res).
- destruct (shaped3 s _ Hres Hlres) as (a & u4 & v4 & -> & Ha & _).
  cbn [bind ret app]. eexists. split; [reflexivity|]. exact Ha.
- rewrite (nan_like_shaped s x0 Hx0).
  destruct (shaped3 s _ Hx0 Hl0) as (a & u4 & v4 & -> & Ha & _).
  cbn [bind ret app map]. eexists. split; [reflexivity|].
  cbn [MomentumSolution.an]. unfold zeros_like. rewrite !shape_vmap. exact Ha.
Qed.
End IterativeTotal.

(** ** The order of binary64 numbers *)

Ltac compare_cases :=
  repeat match goal with
  | H : context [Pos.compare_cont Eq ?a ?b] |- _ =>
      change (Pos.compare_cont Eq a b) with (Pos.compare a b) in H
  | |- context [Pos.compare_cont Eq ?a ?b] =>
      change (Pos.compare_cont Eq a b) with (Pos.compare a b)
  | H : context [Z.compare ?a ?b] |- _ => destruct (Z.compare_spec a b)
  | |- context [Z.compare ?a ?b] => destruct (Z.compare_spec a b)
  | H : context [Pos.compare ?a ?b] |- _ => destruct (Pos.compare_spec a b)
  | |- context [Pos.compare ?a ?b] => destruct (Pos.compare_spec a b)
  end;
  subst; cbn in *; try discriminate; try reflexivity; try lia.

Lemma fltb_trans x y z : fltb x y = true -> fltb y z = true -> fltb x z = true.
Proof.
  unfold fltb, SFltb.
  destruct x as [sx|sx| |sx mx ex], y as [sy|sy| |sy my ey], z as [sz|sz| |sz mz ez];
    try destruct sx; try destruct sy; try destruct sz; cbn; try discriminate;
    try reflexivity; intros; compare_cases.
Qed.

(** [y <= x] read as "not [x < y]", for numbers. *)
Lemma fltb_le_trans c x y :
  is_nan x = false -> is_nan y = false ->
  fltb x y = false -> fltb c y = true -> fltb c x = true.
Proof.
  unfold fltb, SFltb.
  destruct x as [sx|sx| |sx mx ex], y as [sy|sy| |sy my ey], c as [sc|sc| |sc mc ec];
    try destruct sx; try destruct sy; try destruct sc; cbn; try discriminate;
    try reflexivity; intros; compare_cases.
Qed.

Lemma fmaximum_not_nan x y :
  is_nan x = false -> is_nan y = false -> is_nan (fmaximum x y) = false.
Proof.
  intros Hx Hy. unfold fmaximum. rewrite Hx, Hy. destruct (fltb x y); assumption.
Qed.

Lemma fltb_fmaximum c x y :
  is_nan x = false -> is_nan y = false ->
  fltb c (fmaximum x y) = fltb c x || fltb c y.
Proof.
  intros Hx Hy. unfold fmaximum. rewrite Hx, Hy.
  destruct (fltb x y) eqn:Hxy.
  - destruct (fltb c x) eqn:Hcx; [|reflexivity].
    cbn. apply (fltb_trans c x y); assumption.
  - destruct (fltb c y) eqn:Hcy; [|now rewrite orb_false_r].
    rewrite (fltb_le_trans c x y Hx Hy Hxy Hcy). reflexivity.
Qed.

Lemma fltb_fold_maximum c l : forall x,
  is_nan x = false -> existsb is_nan l = false ->
  fltb c (fold_left fmaximum l x) = fltb c x || existsb (fltb c) l.
Proof.
  induction l as [|y l IH]; intros x Hx Hl; cbn [fold_left existsb] in *.
  - now rewrite orb_false_r.
  - apply orb_false_elim in Hl as [Hy Hl].
    rewrite IH by (try apply fmaximum_not_nan; assumption).
    rewrite fltb_fmaximum by assumption. now rewrite orb_assoc.
Qed.

(** Without a not-a-number the largest element exceeds a bound exactly when
    some element does. *)
Lemma fltb_np_max c a m :
  np_max a = Some m -> vexistsb is_nan a = false ->
  fltb c m = vexistsb (fltb c) a.
Proof.
  destruct a as [x|[|x l]]; cbn [np_max vexistsb existsb].
  - intros [= <-] _. reflexivity.
  - discriminate.
  - intros [= <-] H. apply orb_false_elim in H as [Hx Hl].
    apply fltb_fold_maximum; assumption.
Qed.

Lemma vforallb_vmap p f a :
  (forall x, p (f x) = true) -> vforallb p (vmap f a) = true.
Proof.
  intro H. destruct a as [x|l]; cbn [vmap vforallb]; [apply H|].
  apply forallb_forall. intros y Hy. apply in_map_iff in Hy as (x & <- & _). apply H.
Qed.

Lemma vforallb_zeros_like a : vforallb is_zero (zeros_like a) = true.
Proof. apply vforallb_vmap. reflexivity. Qed.

Lemma shape_zeros_like a : shape (zeros_like a) = shape a.
Proof. apply shape_vmap. Qed.

Lemma nan_like_Some x s l :
  nan_like x = Some (s, l) ->
  s = map (fun a => vmap (fmul nan) (zeros_like a)) x /\ l = [].
Proof.
  unfold nan_like. intro H. binv H as z lz lz' Ez H.
  apply np_array_Some in Ez as (-> & -> & _). apply ret_Some in H as [<- ->].
  now rewrite map_map.
Qed.

Lemma vforallb_nan_like a : vforallb is_nan (vmap (fmul nan) (zeros_like a)) = true.
Proof. apply vforallb_vmap. reflexivity. Qed.

(** C10. Whatever the inputs, the initial guess and the outcome of the
    iteration, the record [Heck.solve] returns has [dp = zeros_like(an)]: zero
    in every element and of the shape of [an].  And the solve does return, for
    every loading with a largest element and every yaw that broadcasts with
    it. *)
Theorem C10_Heck_dp_zero {np : Numpy} {d : Defaults} (Ctprime yaw : val)
    (s : option nat) (m : float) (eps : option float) :
  bshape (shape Ctprime) (shape yaw) = Some s ->
  np_max Ctprime = Some m ->
  (exists sol, Heck.solve Ctprime yaw None eps = Some (sol, [])) /\
  (forall x0 sol lg, Heck.solve Ctprime yaw x0 eps = Some (sol, lg) ->
     MomentumSolution.dp sol = zeros_like (MomentumSolution.an sol) /\
     vforallb is_zero (MomentumSolution.dp sol) = true /\
     shape (MomentumSolution.dp sol) = shape (MomentumSolution.an sol)).
Proof.
  intros Hs Hm. split.
  - destruct (Heck_solve_total Ctprime yaw s m eps Hs Hm) as (sol & H & _). eauto.
  - intros x0 sol lg H.
    apply Heck_solve_Some in H
      as (x0' & l0 & relax & res & l1 & a & u4 & v4 & _ & _ & _ & _ & -> & _).
    cbn [MomentumSolution.dp MomentumSolution.an].
    split; [reflexivity|]. split; [apply vforallb_zeros_like|apply shape_zeros_like].
Qed.

Lemma C10_Heck_dp_zero_witness :
  bshape (shape (Arr [2; 16]%py)) (shape 0%py) = Some (Some 2%nat) /\
  np_max (Arr [2; 16]%py) = Some 16%py /\
  exists sol,
    Heck.solve (np := Reference.numpy) (d := Reference.defaults)
      (Arr [2; 16]%py) 0%py None None = Some (sol, []) /\
    MomentumSolution.dp sol = Arr [0; 0]%py.
Proof.
  split; [reflexivity|]. split; [reflexivity|].
  destruct (C10_Heck_dp_zero (np := Reference.numpy) (d := Reference.defaults)
              (Arr [2; 16]%py) 0%py (Some 2%nat) 16%py None eq_refl eq_refl)
    as [(sol & Hsol) Hdp].
  exists sol. split; [exact Hsol|].
  destruct (Hdp None sol [] Hsol) as (-> & _ & _).
  vm_compute in Hsol. injection Hsol as <-. reflexivity.
Defined.

(** C1 (amended). When [Heck.solve] returns a record with [converged = false],
    its [an], [u4] and [v4] are not-a-number in every element, its [dp] is
    zero in every element (this model's [dp] is [zeros_like(an)] and is never
    replaced), its [Ctprime] and [yaw] are the inputs, and its [niter] and
    [converged] are those the engine reported for the iteration it ran. *)
Theorem C1_Heck_nonconvergence {np : Numpy} {d : Defaults} (Ctprime yaw : val)
    (x0 : option state) (eps : option float) (sol : MomentumSolution.t)
    (lg : list call) :
  Heck.solve Ctprime yaw x0 eps = Some (sol, lg) ->
  MomentumSolution.converged sol = false ->
  vforallb is_nan (MomentumSolution.an sol) = true /\
  vforallb is_nan (MomentumSolution.u4 sol) = true /\
  vforallb is_nan (MomentumSolution.v4 sol) = true /\
  vforallb is_zero (MomentumSolution.dp sol) = true /\
  shape (MomentumSolution.dp sol) = shape (MomentumSolution.an sol) /\
  MomentumSolution.Ctprime sol = Ctprime /\
  MomentumSolution.yaw sol = yaw /\
  exists x0' relax res l1,
    fixedpointiteration (fun x => Heck.residual x Ctprime yaw) x0'
      (Some (match eps with Some e => e | None => 0.00001%py end)) None relax
    = Some (res, l1) /\
    converged res = false /\
    MomentumSolution.niter sol = niter res.
Proof.
  intros H Hc.
  apply Heck_solve_Some in H
    as (x0' & l0 & relax & res & l1 & a & u4 & v4 & _ & _ & Hi & Hs & -> & _).
  cbn [MomentumSolution.converged MomentumSolution.an MomentumSolution.u4
       MomentumSolution.v4 MomentumSolution.dp MomentumSolution.Ctprime
       MomentumSolution.yaw MomentumSolution.niter] in *.
  rewrite Hc in Hs. apply nan_like_Some in Hs as [Hs _].
  destruct x0' as [|a0 [|u0 [|v0 [|]]]]; try discriminate.
  cbn [map] in Hs. injection Hs as -> -> ->.
  repeat (split; [first [apply vforallb_nan_like | apply vforallb_zeros_like
                        | apply shape_zeros_like | reflexivity]|]).
  exists [a0; u0; v0], relax, res, l1. auto.
Qed.

Lemma C1_Heck_nonconvergence_witness :
  exists sol,
    Heck.solve (np := Reference.numpy) (d := Reference.defaults) 2%py 0%py None (Some 0%py)
    = Some (sol, []) /\
    MomentumSolution.converged sol = false /\
    vforallb is_nan (MomentumSolution.an sol) = true /\
    vforallb is_zero (MomentumSolution.dp sol) = true.
Proof.
  eexists. split; [vm_compute; reflexivity|]. split; [reflexivity|].
  match goal with |- vforallb is_nan (MomentumSolution.an ?s) = true /\ _ =>
    destruct (C1_Heck_nonconvergence (np := Reference.numpy) (d := Reference.defaults)
                2%py 0%py None (Some 0%py) s [])
      as (Ha & _ & _ & Hd & _)
  end.
  - vm_compute. reflexivity.
  - reflexivity.
  - split; [exact Ha|exact Hd].
Defined.

(** C1, as stated, fails at [Ctprime = 2], [yaw = 0] with the unreachable
    tolerance [eps = 0]: the solve does not converge, [an], [u4] and [v4]
    are not-a-number, and the [dp] of the record is zero, not
    not-a-number. *)
Lemma C1_counterexample :
  exists sol,
    Heck.solve (np := Reference.numpy) (d := Reference.defaults) 2%py 0%py None (Some 0%py)
    = Some (sol, []) /\
    MomentumSolution.converged sol = false /\
    MomentumSolution.an sol = Scalar nan /\
    MomentumSolution.dp sol = Scalar zero /\
    vforallb is_nan (MomentumSolution.dp sol) = false.
Proof.
  eexists. split; [vm_compute; reflexivity|]. repeat split.
Qed.



(** ** The unified models *)

Section Unified.
Context {np : Numpy} {pf : PressureField} {d : Defaults}.

(** The pressure helper makes exactly one call. *)
Lemma nonlinear_pressure_Some self Ctprime yaw an u4 p l :
  UnifiedMomentum._nonlinear_pressure self Ctprime yaw an u4 = Some (p, l) ->
  exists half x0, l = [(half, x0)] /\ p = get_pressure half x0.
Proof.
  unfold UnifiedMomentum._nonlinear_pressure. intro H.
  binv H as x0 l0 l0' E0 H. apply eval_Some in E0 as [_ ->].
  binv H as CT l1 l1' E1 H. apply eval_Some in E1 as [_ ->].
  binv H as half l2 l2' E2 H. apply eval_Some in E2 as [_ ->].
  unfold call_get_pressure in H. injection H as <- <-. cbn [app]. eauto.
Qed.

(** Each evaluation of the unified residual makes exactly one call. *)
Lemma Unified_residual_calls self x Ctprime yaw r l :
  UnifiedMomentum.residual self x Ctprime yaw = Some (r, l) ->
  length l = 1%nat /\ length r = 4%nat.
Proof.
  unfold UnifiedMomentum.residual.
  destruct x as [|an [|u4 [|v4 [|dp [|]]]]]; try discriminate. intro H.
  binv H as p_g l0 l0' E0 H. apply nonlinear_pressure_Some in E0 as (h & x0 & -> & _).
  binv H as x0' l1 l1' E1 H. apply eval_Some in E1 as [_ ->].
  binv H as e_an l2 l2' E2 H. apply eval_Some in E2 as [_ ->].
  binv H as e_u4 l3 l3' E3 H. apply eval_Some in E3 as [_ ->].
  binv H as e_v4 l4 l4' E4 H. apply eval_Some in E4 as [_ ->].
  binv H as e_dp l5 l5' E5 H. apply eval_Some in E5 as [_ ->].
  apply ret_Some in H as [<- ->]. split; reflexivity.
Qed.

Lemma ThrustBased_residual_calls self x Ct yaw r l :
  ThrustBasedUnified.residual self x Ct yaw = Some (r, l) ->
  length l = 1%nat /\ length r = 5%nat.
Proof.
  unfold ThrustBasedUnified.residual.
  destruct x as [|an [|u4 [|v4 [|dp [|Ctprime [|]]]]]]; try discriminate. intro H.
  binv H as r4 l0 l0' E0 H. pose proof (Unified_residual_calls _ _ _ _ _ _ E0) as [Hl Hr].
  destruct r4 as [|e_an [|e_u4 [|e_v4 [|e_dp [|]]]]]; try discriminate.
  binv H as e_C l1 l1' E1 H. apply eval_Some in E1 as [_ ->].
  apply np_array_Some in H as (-> & -> & _).
  rewrite app_nil_r. split; [exact Hl|reflexivity].
Qed.

Lemma vstack_Some l s lg : vstack l = Some (s, lg) -> s = map atleast_1d l /\ lg = [].
Proof. unfold vstack. intro H. apply np_array_Some in H as (-> & -> & _). auto. Qed.

Lemma Unified_initial_condition_Some Ctprime yaw x0 l :
  UnifiedMomentum.initial_condition Ctprime yaw = Some (x0, l) ->
  l = [] /\ length x0 = 4%nat.
Proof.
  unfold UnifiedMomentum.initial_condition. intro H.
  binv H as an l0 l0' E0 H. apply eval_Some in E0 as [_ ->].
  binv H as u4 l1 l1' E1 H. apply eval_Some in E1 as [_ ->].
  binv H as v4 l2 l2' E2 H. apply eval_Some in E2 as [_ ->].
  apply vstack_Some in H as [-> ->]. split; reflexivity.
Qed.

Lemma shape_atleast_1d_eq a b : shape a = shape b -> shape (atleast_1d a) = shape (atleast_1d b).
Proof. destruct a, b; cbn; congruence. Qed.

(** The thrust-based initial guess exists for every thrust coefficient. *)
Lemma ThrustBased_initial_condition_total (Ct yaw : val) :
  exists an u4,
    (0.5 * Ct)%py = Some an /\ (1 - Ct)%py = Some u4 /\
    ThrustBasedUnified.initial_condition Ct yaw
    = Some (map atleast_1d [an; u4; zeros_like Ct; zeros_like Ct; vmap fsign Ct], []).
Proof.
  unfold ThrustBasedUnified.initial_condition.
  assert (Ha : has_shape (0.5 * Ct)%py (shape Ct)) by (shape_steps; eauto with bshape).
  assert (Hu : has_shape (1 - Ct)%py (shape Ct)) by (shape_steps; eauto with bshape).
  destruct Ha as (an & Ea & Ha), Hu as (u4 & Eu & Hu).
  exists an, u4. rewrite Ea, Eu. split; [reflexivity|]. split; [reflexivity|].
  cbn [eval bind ret app]. unfold vstack, np_array.
  rewrite (uniform_shaped (shape (atleast_1d Ct))); [reflexivity|].
  repeat constructor; apply shape_atleast_1d_eq;
    rewrite ?Ha, ?Hu; unfold zeros_like; rewrite ?shape_vmap; reflexivity.
Qed.

(** A run of [UnifiedMomentum.solve] that returns, statement by statement. *)
Lemma Unified_solve_Some self Ctprime yaw x0 maxiter relax sol lg :
  UnifiedMomentum.solve self Ctprime yaw x0 maxiter relax = Some (sol, lg) ->
  exists x0' res l1 a u4 v4 dp p_g l2,
    UnifiedMomentum.initial_condition Ctprime yaw = Some (x0', []) /\
    fixedpointiteration (fun x => UnifiedMomentum.residual self x Ctprime yaw) x0'
      None (Some (match maxiter with Some n => n | None => 400%nat end))
      (match relax with Some r => r | None => 0.25%py end)
    = Some (res, l1) /\
    (if converged res then ret (Utilities.x res) else nan_like x0')
    = Some ([a; u4; v4; dp], []) /\
    UnifiedMomentum._nonlinear_pressure self Ctprime yaw a u4 = Some (p_g, l2) /\
    sol = MomentumSolution.mk Ctprime yaw a u4 v4 dp p_g (niter res) (converged res)
            (UnifiedMomentum.beta self) /\
    lg = l1 ++ l2.
Proof.
  unfold UnifiedMomentum.solve. intro H.
  binv H as x0' l0 l0' E0 H.
  pose proof (Unified_initial_condition_Some _ _ _ _ E0) as [-> _].
  binv H as res l1 l1' Ei H.
  binv H as s ls ls' Es H.
  assert (ls = []) as ->.
  { destruct (converged res).
    - apply ret_Some in Es as [_ ->]. reflexivity.
    - apply nan_like_Some in Es as [_ ->]. reflexivity. }
  destruct s as [|a [|u4 [|v4 [|dp [|]]]]]; try discriminate.
  binv H as p_g l2 l2' Ep H. apply ret_Some in H as [<- ->].
  exists x0', res, l1, a, u4, v4, dp, p_g, l2. rewrite !app_nil_r. cbn [app]. auto 10.
Qed.

(** A run of [ThrustBasedUnified.solve] that returns, statement by statement. *)
Lemma ThrustBased_solve_Some self Ct yaw x0 relax maxiter sol lg :
  ThrustBasedUnified.solve self Ct yaw x0 relax maxiter = Some (sol, lg) ->
  exists x0' res a u4 v4 dp Ctprime,
    ThrustBasedUnified.initial_condition Ct yaw = Some (x0', []) /\
    fixedpointiteration (fun x => ThrustBasedUnified.residual self x Ct yaw) x0'
      None (Some (match maxiter with Some n => n | None => 5000%nat end))
      (match relax with Some r => r | None => 0.25%py end)
    = Some (res, lg) /\
    Utilities.x res = [a; u4; v4; dp; Ctprime] /\
    sol = MomentumSolution.mk Ctprime yaw a u4 v4 dp 0%py (niter res) (converged res)
            (UnifiedMomentum.beta self).
Proof.
  unfold ThrustBasedUnified.solve. intro H.
  binv H as x0' l0 l0' E0 H.
  destruct (ThrustBased_initial_condition_total Ct yaw) as (an0 & u40 & _ & _ & E0').
  rewrite E0' in E0. injection E0 as <- <-.
  binv H as res l1 l1' Ei H.
  destruct (Utilities.x res) as [|a [|u4 [|v4 [|dp [|Ctprime [|]]]]]] eqn:Ex;
    try discriminate.
  apply ret_Some in H as [<- ->].
  exists (map atleast_1d [an0; u40; zeros_like Ct; zeros_like Ct; vmap fsign Ct]),
    res, a, u4, v4, dp, Ctprime.
  rewrite app_nil_r. cbn [app]. auto 10.
Qed.
(** The pressure field is called once per evaluation of the residual: an
    iteration of either unified model makes as many calls as it reports
    evaluations. *)
Lemma Unified_iteration_calls self Ctprime yaw x0 eps maxiter relax res lg :
  fixedpointiteration (fun x => UnifiedMomentum.residual self x Ctprime yaw) x0
    eps maxiter relax = Some (res, lg) ->
  length lg = niter res.
Proof.
  unfold fixedpointiteration. intro H.
  destruct (iterate_calls _ _ _ 1
              (fun x r l Hr => proj1 (Unified_residual_calls _ _ _ _ _ _ Hr))
              _ _ _ _ _ H) as [Hl _].
  rewrite Nat.sub_0_r, Nat.mul_1_r in Hl. exact Hl.
Qed.

Lemma ThrustBased_iteration_calls self Ct yaw x0 eps maxiter relax res lg :
  fixedpointiteration (fun x => ThrustBasedUnified.residual self x Ct yaw) x0
    eps maxiter relax = Some (res, lg) ->
  length lg = niter res.
Proof.
  unfold fixedpointiteration. intro H.
  destruct (iterate_calls _ _ _ 1
              (fun x r l Hr => proj1 (ThrustBased_residual_calls _ _ _ _ _ _ Hr))
              _ _ _ _ _ H) as [Hl _].
  rewrite Nat.sub_0_r, Nat.mul_1_r in Hl. exact Hl.
Qed.
End Unified.

(** C5. [ThrustBasedUnified.solve] has no substitution path: the record it
    returns holds the five unknowns of the engine's final iterate as they
    are, with the engine's [converged] and [niter], whether the iteration
    converged or not.  The initial guess always exists, and whenever the
    iteration returns, so does the solve. *)
Theorem C5_ThrustBased_raw_iterate {np : Numpy} {pf : PressureField} {d : Defaults}
    (self : UnifiedMomentum.t) (Ct yaw : val) (x0 : option state)
    (relax : option float) (maxiter : option nat) :
  exists x0',
    ThrustBasedUnified.initial_condition Ct yaw = Some (x0', []) /\
    forall res lg,
      fixedpointiteration (fun x => ThrustBasedUnified.residual self x Ct yaw) x0'
        None (Some (match maxiter with Some n => n | None => 5000%nat end))
        (match relax with Some r => r | None => 0.25%py end)
      = Some (res, lg) ->
      exists sol,
        ThrustBasedUnified.solve self Ct yaw x0 relax maxiter = Some (sol, lg) /\
        Utilities.x res = [MomentumSolution.an sol; MomentumSolution.u4 sol;
                           MomentumSolution.v4 sol; MomentumSolution.dp sol;
                           MomentumSolution.Ctprime sol] /\
        MomentumSolution.converged sol = converged res /\
        MomentumSolution.niter sol = niter res /\
        MomentumSolution.yaw sol = yaw.
Proof.
  destruct (ThrustBased_initial_condition_total Ct yaw) as (an0 & u40 & _ & _ & E0).
  eexists. split; [exact E0|]. intros res lg Hi.
  pose proof (iterate_length _ _ _ _ _ _ _ _ Hi) as Hl. cbn [map length] in Hl.
  unfold ThrustBasedUnified.solve. rewrite E0. cbn [bind]. rewrite Hi. cbn [bind app].
  destruct (Utilities.x res) as [|a [|u4 [|v4 [|dp [|Ctprime [|]]]]]]; try discriminate.
  cbn [bind ret]. rewrite ?app_nil_r. eexists. split; [reflexivity|].
  cbn. auto.
Qed.

Lemma C5_ThrustBased_raw_iterate_witness :
  exists sol,
    ThrustBasedUnified.solve (np := Reference.numpy) (pf := Reference.pressure)
      (d := Reference.defaults) (UnifiedMomentum.init None) 0.5%py 0%py None None (Some 0%nat)
    = Some (sol, []) /\
    MomentumSolution.converged sol = false /\
    MomentumSolution.an sol = Arr [0.25%py] /\
    MomentumSolution.u4 sol = Arr [0.5%py] /\
    MomentumSolution.Ctprime sol = Arr [1%py].
Proof.
  destruct (C5_ThrustBased_raw_iterate (np := Reference.numpy) (pf := Reference.pressure)
              (d := Reference.defaults) (UnifiedMomentum.init None) 0.5%py 0%py None None
              (Some 0%nat)) as (x0' & E0 & H).
  vm_compute in E0. injection E0 as <-.
  destruct (H _ [] eq_refl) as (sol & Hsol & Hx & Hc & _).
  exists sol. split; [exact Hsol|]. split; [exact Hc|].
  vm_compute in Hsol. injection Hsol as <-. repeat split.
Defined.

(** C3 (the code at the failing input). [UnifiedMomentum.solve] and
    [ThrustBasedUnified.solve] accept [x0] and rebind it in their first
    statement: whatever the caller supplies, the result is that of the call
    without it, and the iteration starts from [initial_condition].
    [Heck.solve] starts from the supplied guess. *)
Theorem C3_x0_discarded {np : Numpy} {pf : PressureField} {d : Defaults}
    (self : UnifiedMomentum.t) (Ctprime yaw : val) (x0 : state)
    (maxiter : option nat) (relax eps : option float) :
  UnifiedMomentum.solve self Ctprime yaw (Some x0) maxiter relax
  = UnifiedMomentum.solve self Ctprime yaw None maxiter relax /\
  ThrustBasedUnified.solve self Ctprime yaw (Some x0) relax maxiter
  = ThrustBasedUnified.solve self Ctprime yaw None relax maxiter /\
  (forall sol lg,
     UnifiedMomentum.solve self Ctprime yaw (Some x0) maxiter relax = Some (sol, lg) ->
     exists x0' res l1,
       UnifiedMomentum.initial_condition Ctprime yaw = Some (x0', []) /\
       fixedpointiteration (fun x => UnifiedMomentum.residual self x Ctprime yaw) x0'
         None (Some (match maxiter with Some n => n | None => 400%nat end))
         (match relax with Some r => r | None => 0.25%py end)
       = Some (res, l1)) /\
  (forall sol lg,
     Heck.solve Ctprime yaw (Some x0) eps = Some (sol, lg) ->
     exists relax res l1,
       fixedpointiteration (fun x => Heck.residual x Ctprime yaw) x0
         (Some (match eps with Some e => e | None => 0.00001%py end)) None relax
       = Some (res, l1)).
Proof.
  split; [reflexivity|]. split; [reflexivity|]. split.
  - intros sol lg H.
    apply Unified_solve_Some in H
      as (x0' & res & l1 & a & u4 & v4 & dp & p_g & l2 & E0 & Ei & _).
    eauto.
  - intros sol lg H.
    apply Heck_solve_Some in H
      as (x0' & l0 & relax' & res & l1 & a & u4 & v4 & E0 & _ & Ei & _).
    apply ret_Some in E0 as [<- _]. eauto.
Qed.

Lemma C3_x0_discarded_witness :
  exists sol lg,
    UnifiedMomentum.solve (np := Reference.numpy) (pf := Reference.pressure)
      (d := Reference.defaults) (UnifiedMomentum.init None) 2%py 0%py
      (Some [Arr [0.5%py]; Arr [0.5%py]; Arr [0%py]; Arr [0%py]]) (Some 3%nat) None
    = Some (sol, lg) /\
    UnifiedMomentum.solve (np := Reference.numpy) (pf := Reference.pressure)
      (d := Reference.defaults) (UnifiedMomentum.init None) 2%py 0%py
      None (Some 3%nat) None
    = Some (sol, lg) /\
    MomentumSolution.niter sol = 3%nat.
Proof.
  eexists _, _. split; [vm_compute; reflexivity|]. split; [|reflexivity].
  rewrite <- (proj1 (C3_x0_discarded (np := Reference.numpy) (pf := Reference.pressure)
                       (d := Reference.defaults) (UnifiedMomentum.init None) 2%py 0%py
                       [Arr [0.5%py]; Arr [0.5%py]; Arr [0%py]; Arr [0%py]]
                       (Some 3%nat) None None)).
  vm_compute. reflexivity.
Defined.

(** C4 (amended). [UnifiedMomentum.solve] calls the pressure field in the
    residual evaluations of the iteration and once more after it, at the
    [an] and [u4] of the record it returns, which on success are those of
    the converged state; it stores the result of that last call in [dp_NL]
    and echoes [beta].  [ThrustBasedUnified.solve] makes no such call: its
    calls are those of the iteration and its [dp_NL] is the default 0. *)
Theorem C4_pressure_diagnostic {np : Numpy} {pf : PressureField} {d : Defaults}
    (self : UnifiedMomentum.t) (Ctprime yaw : val) (x0 : option state)
    (maxiter : option nat) (relax : option float) :
  (forall sol lg,
     UnifiedMomentum.solve self Ctprime yaw x0 maxiter relax = Some (sol, lg) ->
     exists x0' res lg_iter half x0v,
       fixedpointiteration (fun x => UnifiedMomentum.residual self x Ctprime yaw) x0'
         None (Some (match maxiter with Some n => n | None => 400%nat end))
         (match relax with Some r => r | None => 0.25%py end)
       = Some (res, lg_iter) /\
       lg = lg_iter ++ [(half, x0v)] /\
       UnifiedMomentum._nonlinear_pressure self Ctprime yaw
         (MomentumSolution.an sol) (MomentumSolution.u4 sol)
       = Some (MomentumSolution.dp_NL sol, [(half, x0v)]) /\
       MomentumSolution.dp_NL sol = get_pressure half x0v /\
       (MomentumSolution.converged sol = true ->
        Utilities.x res = [MomentumSolution.an sol; MomentumSolution.u4 sol;
                           MomentumSolution.v4 sol; MomentumSolution.dp sol]) /\
       MomentumSolution.beta sol = Scalar (UnifiedMomentum.beta self)) /\
  (forall sol lg,
     ThrustBasedUnified.solve self Ctprime yaw x0 relax maxiter = Some (sol, lg) ->
     exists x0' res,
       fixedpointiteration (fun x => ThrustBasedUnified.residual self x Ctprime yaw) x0'
         None (Some (match maxiter with Some n => n | None => 5000%nat end))
         (match relax with Some r => r | None => 0.25%py end)
       = Some (res, lg) /\
       MomentumSolution.dp_NL sol = Scalar zero /\
       MomentumSolution.beta sol = Scalar (UnifiedMomentum.beta self)).
Proof.
  split.
  - intros sol lg H.
    apply Unified_solve_Some in H
      as (x0' & res & l1 & a & u4 & v4 & dp & p_g & l2 & _ & Ei & Es & Ep & -> & ->).
    destruct (nonlinear_pressure_Some _ _ _ _ _ _ _ Ep) as (half & x0v & -> & Hp).
    exists x0', res, l1, half, x0v.
    cbn [MomentumSolution.converged MomentumSolution.an MomentumSolution.u4
         MomentumSolution.v4 MomentumSolution.dp MomentumSolution.dp_NL
         MomentumSolution.beta].
    split; [exact Ei|]. split; [reflexivity|]. split; [exact Ep|].
    split; [exact Hp|]. split; [|reflexivity].
    intro Hc. rewrite Hc in Es. apply ret_Some in Es as [Es _]. exact Es.
  - intros sol lg H.
    apply ThrustBased_solve_Some in H
      as (x0' & res & a & u4 & v4 & dp & C & _ & Ei & _ & ->).
    exists x0', res. auto.
Qed.

Lemma C4_pressure_diagnostic_witness :
  exists sol lg,
    UnifiedMomentum.solve (np := Reference.numpy) (pf := Reference.pressure)
      (d := Reference.defaults) (UnifiedMomentum.init None) 2%py 0%py None None None
    = Some (sol, lg) /\
    MomentumSolution.converged sol = true /\
    MomentumSolution.dp_NL sol = Arr [0.01%py] /\
    exists half x0v, last lg (Scalar nan, Scalar nan) = (half, x0v) /\
                     MomentumSolution.dp_NL sol
                     = get_pressure (PressureField := Reference.pressure) half x0v.
Proof.
  eexists _, _. split; [vm_compute; reflexivity|]. split; [reflexivity|].
  split; [reflexivity|].
  match goal with |- exists half x0v, last ?lg _ = _ /\ MomentumSolution.dp_NL ?sol = _ =>
    destruct (proj1 (C4_pressure_diagnostic (np := Reference.numpy)
                       (pf := Reference.pressure) (d := Reference.defaults)
                       (UnifiedMomentum.init None) 2%py 0%py None None None) sol lg)
      as (x0' & res & lg_iter & half & x0v & _ & Hlg & _ & Hp & _)
  end.
  - vm_compute. reflexivity.
  - exists half, x0v. split; [|exact Hp]. rewrite Hlg. apply last_last.
Defined.

(** C4, as stated, fails for the thrust-based model: at [Ct = 0.5], [yaw = 0]
    its solve converges and returns [dp_NL = 0], while the pressure field at
    the converged [an] and [u4] answers 0.01. *)
Lemma C4_counterexample :
  exists sol lg p c,
    ThrustBasedUnified.solve (np := Reference.numpy) (pf := Reference.pressure)
      (d := Reference.defaults) (UnifiedMomentum.init None) 0.5%py 0%py None None None
    = Some (sol, lg) /\
    MomentumSolution.converged sol = true /\
    MomentumSolution.dp_NL sol = Scalar zero /\
    UnifiedMomentum._nonlinear_pressure (np := Reference.numpy) (pf := Reference.pressure)
      (UnifiedMomentum.init None) (MomentumSolution.Ctprime sol) 0%py
      (MomentumSolution.an sol) (MomentumSolution.u4 sol)
    = Some (p, [c]) /\
    p = Arr [0.01%py].
Proof.
  eexists _, _, _, _. split; [vm_compute; reflexivity|].
  split; [reflexivity|]. split; [reflexivity|].
  split; [vm_compute; reflexivity|]. reflexivity.
Qed.

(** ** Infinities and not-a-number in the arithmetic *)

Lemma fdiv_zero_inf_or_nan x s : inf_or_nan (fdiv x (S754_zero s)) = true.
Proof. destruct x; reflexivity. Qed.

Lemma fadd_inf_or_nan x y :
  inf_or_nan x = true -> inf_or_nan y = true -> inf_or_nan (fadd x y) = true.
Proof.
  destruct x as [| [|] | |], y as [| [|] | |]; try discriminate; reflexivity.
Qed.

Lemma fsqrt_inf_or_nan x : inf_or_nan x = true -> inf_or_nan (fsqrt x) = true.
Proof. destruct x as [| [|] | |]; try discriminate; reflexivity. Qed.

Lemma fsub_inf_or_nan_r x y : inf_or_nan y = true -> inf_or_nan (fsub x y) = true.
Proof.
  destruct x as [| [|] | |], y as [| [|] | |]; try discriminate; reflexivity.
Qed.

Lemma fsub_inf_or_nan_l x y : inf_or_nan x = true -> inf_or_nan (fsub x y) = true.
Proof.
  destruct x as [| [|] | |], y as [| [|] | |]; try discriminate; reflexivity.
Qed.

(** An infinite or not-a-number residual is below no tolerance. *)
Lemma not_below_inf_or_nan x eps : inf_or_nan x = true -> fltb (fabs x) eps = false.
Proof.
  destruct x as [| [|] | |], eps as [| [|] | |]; try discriminate; reflexivity.
Qed.

Lemma fsub_nan_r x : fsub x nan = nan.
Proof. destruct x; reflexivity. Qed.

Lemma fadd_nan_r x : fadd x nan = nan.
Proof. destruct x; reflexivity. Qed.

Lemma fmul_nan_r x : fmul x nan = nan.
Proof. destruct x; reflexivity. Qed.

(** When the residual is never below the tolerance on the states of an
    invariant, an iteration that returns has spent all its evaluations. *)
Lemma iterate_never_below (I : state -> Prop) f relax eps :
  (forall x r l x', I x -> f x = Some (r, l) -> update relax x r = Some (x', []) ->
                    below eps r = false /\ I x') ->
  forall fuel n x res l,
    I x -> iterate f relax eps fuel n x = Some (res, l) ->
    converged res = false /\ niter res = (n + fuel)%nat /\ I (Utilities.x res).
Proof.
  intros Hstep. induction fuel as [|fuel IH]; intros n x res l Hx H; cbn [iterate] in H.
  - injection H as <- <-. cbn. auto.
  - binv H as r l0 l0' Er H. binv H as x' l1 l1' Eu H.
    pose proof (update_Some _ _ _ _ _ Eu) as (-> & _ & _).
    destruct (Hstep _ _ _ _ Hx Er Eu) as [Hb Hx']. rewrite Hb in H.
    apply IH in H as (Hc & Hn & HI); [|exact Hx']. repeat split; auto. lia.
Qed.

(** The same, when the first state satisfies [I0] and every later one [I]. *)
Lemma iterate_stuck_from (I0 I : state -> Prop) f relax eps :
  (forall x, I0 x \/ I x -> exists r l x',
      f x = Some (r, l) /\ update relax x r = Some (x', []) /\
      below eps r = false /\ I x') ->
  forall fuel n x, I0 x \/ I x ->
    exists res l, iterate f relax eps fuel n x = Some (res, l) /\
                  converged res = false /\ niter res = (n + fuel)%nat /\
                  (fuel = 0%nat \/ I (Utilities.x res)).
Proof.
  intros Hstep. induction fuel as [|fuel IH]; intros n x Hx; cbn [iterate].
  - eexists _, _. split; [reflexivity|]. cbn. auto.
  - destruct (Hstep x Hx) as (r & l & x' & Hf & Hu & Hb & Hx').
    destruct (IH (S n) x' (or_intror Hx')) as (res & l' & Hi & Hc & Hn & HI).
    exists res, (l ++ l'). rewrite Hf. cbn [bind]. rewrite Hu. cbn [bind].
    rewrite Hb, Hi. cbn [app]. split; [reflexivity|]. split; [exact Hc|].
    split; [lia|]. right. destruct HI as [->|HI]; [|exact HI].
    cbn [iterate] in Hi. injection Hi as <- _. exact Hx'.
Qed.

(** ** Zero loading *)

Section ZeroLoading.
Context {np : Numpy} {pf : PressureField} {d : Defaults}.
Hypothesis Hnp : exact_at_zero np.

#[local] Arguments fadd : simpl never.
#[local] Arguments fsub : simpl never.
#[local] Arguments fmul : simpl never.
#[local] Arguments fdiv : simpl never.
#[local] Arguments fsqrt : simpl never.
#[local] Arguments fopp : simpl never.
#[local] Arguments fabs : simpl never.
#[local] Arguments fltb : simpl never.

(** At zero loading the first residual of the iterative model divides by
    [sqrt(0) * cos(0) = 0]: it is infinite or not-a-number on every state. *)
Lemma Heck_residual_zero_loading (a u v : float) :
  exists ea eu ev,
    Heck.residual [Scalar a; Scalar u; Scalar v] 0%py 0%py
    = Some ([Scalar ea; Scalar eu; Scalar ev], []) /\
    inf_or_nan ea = true.
Proof.
  destruct Hnp as [Hc Hs]. cbn. rewrite Hc, Hs.
  eexists _, _, _. split; [reflexivity|].
  apply fsub_inf_or_nan_l, fsub_inf_or_nan_r.
  apply (fdiv_zero_inf_or_nan _ false).
Qed.

Lemma Heck_step_zero_loading relax eps x r l x' :
  scalars3 x -> Heck.residual x 0%py 0%py = Some (r, l) ->
  update relax x r = Some (x', []) ->
  below eps r = false /\ scalars3 x'.
Proof.
  intros (a & u & v & ->) Hr Hu.
  destruct (Heck_residual_zero_loading a u v) as (ea & eu & ev & E & Hea).
  rewrite E in Hr. injection Hr as <- <-. cbn in Hu. injection Hu as <-.
  split.
  - cbn. rewrite (not_below_inf_or_nan ea eps Hea). reflexivity.
  - eexists _, _, _. reflexivity.
Qed.

Lemma Heck_solve_zero_loading eps :
  exists sol,
    Heck.solve 0%py 0%py None eps = Some (sol, []) /\
    MomentumSolution.converged sol = false /\
    MomentumSolution.niter sol = default_maxiter /\
    MomentumSolution.an sol = Scalar nan /\
    MomentumSolution.u4 sol = Scalar nan /\
    MomentumSolution.v4 sol = Scalar nan /\
    MomentumSolution.dp sol = Scalar zero.
Proof.
  destruct (Heck_solve_total 0%py 0%py None 0%py eps eq_refl eq_refl) as (sol & Hsol & _).
  exists sol. split; [exact Hsol|].
  apply Heck_solve_Some in Hsol
    as (x0' & l0 & relax & res & l1 & a & u4 & v4 & E0 & _ & Ei & Es & -> & _).
  assert (H0 : scalars3 x0').
  { unfold Heck.initial_condition in E0. cbn in E0. injection E0 as <- _.
    eexists _, _, _. reflexivity. }
  unfold fixedpointiteration in Ei.
  destruct (iterate_never_below scalars3 _ relax _
              (fun x r l x' => Heck_step_zero_loading relax _ x r l x')
              _ _ _ _ _ H0 Ei) as (Hc & Hn & _).
  rewrite Hc in Es. destruct H0 as (a0 & u0 & v0 & ->).
  cbn in Es. injection Es as <- <- <-.
  cbn [MomentumSolution.converged MomentumSolution.niter MomentumSolution.an
       MomentumSolution.u4 MomentumSolution.v4 MomentumSolution.dp].
  repeat split; auto.
Qed.

Hypothesis Hpf : one_per_element pf.

(** At zero loading the first residual of the unified model divides by
    [Ctprime * cos(0)^2 = 0] twice: it is infinite or not-a-number on every
    state. *)
Lemma Unified_residual_zero_loading self (a u v p : float) :
  exists ea eu ev ep c,
    UnifiedMomentum.residual self [Arr [a]; Arr [u]; Arr [v]; Arr [p]] 0%py 0%py
    = Some ([Arr [ea]; Arr [eu]; Arr [ev]; Arr [ep]], [c]) /\
    inf_or_nan ea = true.
Proof.
  destruct Hnp as [Hc Hs].
  unfold UnifiedMomentum.residual, UnifiedMomentum._nonlinear_pressure, call_get_pressure.
  cbn. rewrite Hc, Hs.
  match goal with |- context [get_pressure (Arr [?h]) (Arr [?x0])] =>
    destruct (Hpf h x0) as [g Hg]; rewrite Hg
  end.
  cbn. eexists _, _, _, _, _. split; [reflexivity|].
  apply fsub_inf_or_nan_l, fsub_inf_or_nan_r, fsqrt_inf_or_nan, fadd_inf_or_nan;
    apply (fdiv_zero_inf_or_nan _ false).
Qed.

Lemma Unified_step_zero_loading self relax eps x :
  singles4 x ->
  exists r l x',
    UnifiedMomentum.residual self x 0%py 0%py = Some (r, l) /\
    update relax x r = Some (x', []) /\
    below eps r = false /\ singles4 x'.
Proof.
  intros (a & u & v & p & ->).
  destruct (Unified_residual_zero_loading self a u v p)
    as (ea & eu & ev & ep & c & E & Hea).
  eexists _, _, _. split; [exact E|]. split; [cbn; reflexivity|]. split.
  - cbn. rewrite (not_below_inf_or_nan ea eps Hea). reflexivity.
  - eexists _, _, _, _. reflexivity.
Qed.

Lemma Unified_solve_zero_loading self x0 maxiter relax :
  exists sol lg,
    UnifiedMomentum.solve self 0%py 0%py x0 maxiter relax = Some (sol, lg) /\
    MomentumSolution.converged sol = false /\
    MomentumSolution.an sol = Arr [nan] /\
    MomentumSolution.u4 sol = Arr [nan] /\
    MomentumSolution.v4 sol = Arr [nan] /\
    MomentumSolution.dp sol = Arr [nan].
Proof.
  unfold UnifiedMomentum.solve, fixedpointiteration.
  assert (E0 : exists a u v p : float,
             UnifiedMomentum.initial_condition 0%py 0%py
             = Some ([Arr [a]; Arr [u]; Arr [v]; Arr [p]], [])).
  { cbn. eexists _, _, _, _. reflexivity. }
  destruct E0 as (a & u & v & p & ->). cbn [bind].
  match goal with |- context [iterate ?f ?r ?e ?k ?n ?x1] =>
    destruct (iterate_stuck singles4 f r e
                (fun y Hy => Unified_step_zero_loading self r e y Hy) k n x1)
      as (res & l & -> & Hc & _ & _)
  end.
  { eexists _, _, _, _. reflexivity. }
  cbn [bind]. rewrite Hc. cbn [nan_like np_array map zeros_like vmap uniform shape
                               forallb shape_eqb length Nat.eqb andb bind ret app].
  unfold UnifiedMomentum._nonlinear_pressure, call_get_pressure. cbn.
  eexists _, _. split; [reflexivity|]. cbn. auto 10.
Qed.

(** At [Ct = 0] the first residual of the thrust-based model is not-a-number:
    on the initial guess it divides 0 by [Ctprime * cos(0)^2 = 0], and from
    then on [an] itself is not-a-number. *)
Lemma ThrustBased_residual_zero_loading self x :
  singles5_zero x \/ singles5_nan x ->
  exists eu ev ep ec c,
    ThrustBasedUnified.residual self x 0%py 0%py
    = Some ([Arr [nan]; Arr [eu]; Arr [ev]; Arr [ep]; Arr [ec]], [c]).
Proof.
  destruct Hnp as [Hc Hs].
  intros [(a & u & v & ->)|(u & v & p & c & ->)];
    unfold ThrustBasedUnified.residual, UnifiedMomentum.residual,
      UnifiedMomentum._nonlinear_pressure, call_get_pressure;
    cbn; rewrite Hc, Hs;
    match goal with |- context [get_pressure (Arr [?h]) (Arr [?x0])] =>
      destruct (Hpf h x0) as [g Hg]; rewrite Hg
    end;
    cbn; rewrite ?fsub_nan_r; eexists _, _, _, _, _; reflexivity.
Qed.

Lemma ThrustBased_step_zero_loading self relax eps x :
  singles5_zero x \/ singles5_nan x ->
  exists r l x',
    ThrustBasedUnified.residual self x 0%py 0%py = Some (r, l) /\
    update relax x r = Some (x', []) /\
    below eps r = false /\ singles5_nan x'.
Proof.
  intro Hx.
  destruct (ThrustBased_residual_zero_loading self x Hx) as (eu & ev & ep & ec & c & E).
  rewrite E.
  assert (Hu : exists u' v' p' c' : float,
             update relax x [Arr [nan]; Arr [eu]; Arr [ev]; Arr [ep]; Arr [ec]]
             = Some ([Arr [nan]; Arr [u']; Arr [v']; Arr [p']; Arr [c']], [])).
  { destruct Hx as [(a & u & v & ->)|(u & v & p & c0 & ->)]; cbn;
      rewrite ?fmul_nan_r, ?fadd_nan_r; eexists _, _, _, _; reflexivity. }
  destruct Hu as (u' & v' & p' & c' & Hu).
  eexists _, _, _. split; [reflexivity|]. split; [exact Hu|]. split.
  - reflexivity.
  - eexists _, _, _, _. reflexivity.
Qed.

Lemma ThrustBased_solve_zero_loading self x0 relax maxiter :
  exists sol lg,
    ThrustBasedUnified.solve self 0%py 0%py x0 relax maxiter = Some (sol, lg) /\
    MomentumSolution.converged sol = false /\
    (maxiter <> Some 0%nat -> MomentumSolution.an sol = Arr [nan]).
Proof.
  unfold ThrustBasedUnified.solve, fixedpointiteration.
  assert (E0 : exists a u v : float,
             ThrustBasedUnified.initial_condition 0%py 0%py
             = Some ([Arr [a]; Arr [u]; Arr [v]; Arr [zero]; Arr [zero]], [])).
  { cbn. eexists _, _, _. reflexivity. }
  destruct E0 as (a & u & v & ->). cbn [bind].
  match goal with |- context [iterate ?f ?r ?e ?k ?n ?x1] =>
    destruct (iterate_stuck_from singles5_zero singles5_nan f r e
                (fun y Hy => ThrustBased_step_zero_loading self r e y Hy) k n x1)
      as (res & l & Hi & Hc & _ & HI)
  end.
  { left. eexists _, _, _. reflexivity. }
  rewrite Hi. cbn [bind].
  destruct HI as [Hk|(u' & v' & p' & c' & Hx)].
  - rewrite Hk in Hi. cbn [iterate] in Hi. injection Hi as <- <-.
    cbn. eexists _, _. split; [reflexivity|]. split; [reflexivity|].
    intro Hm. destruct maxiter as [k|]; [|discriminate]. congruence.
  - rewrite Hx. cbn [bind ret app]. eexists _, _. split; [reflexivity|].
    cbn. auto.
Qed.
End ZeroLoading.

Lemma Reference_exact_at_zero : exact_at_zero Reference.numpy.
Proof. split; reflexivity. Qed.

Lemma Reference_one_per_element : one_per_element Reference.pressure.
Proof. intros h x0. eexists. reflexivity. Qed.

(** C2 (amended). With a mathematical library exact at the angle 0: at
    [Ctprime = 0], [yaw = 0] the closed-form model returns [an = 0],
    [u4 = 1], [v4 = 0] (the negative zero), [dp = 0] and [converged = true].
    The three iterative models divide by [Ctprime * cos(yaw)^2 = 0] (the
    iterative one by [sqrt(Ctprime) * cos(yaw)]) in their first residual,
    which is then never below the tolerance: none of them converges at zero
    loading, whatever the tolerance, the relaxation and the iteration cap.
    [Heck.solve] returns [converged = false] with [an], [u4], [v4]
    not-a-number and [dp = 0]; [UnifiedMomentum.solve] returns
    [converged = false] with [an], [u4], [v4], [dp] not-a-number;
    [ThrustBasedUnified.solve] returns [converged = false] with [an]
    not-a-number as soon as one iteration is allowed (the last two for a
    pressure field that answers one value per element). *)
Theorem C2_zero_loading {np : Numpy} {pf : PressureField} {d : Defaults}
    (self : UnifiedMomentum.t) :
  exact_at_zero np ->
  (exists sol,
     LimitedHeck.solve 0%py 0%py = Some (sol, []) /\
     MomentumSolution.an sol = Scalar zero /\
     MomentumSolution.u4 sol = Scalar 1%py /\
     vforallb is_zero (MomentumSolution.v4 sol) = true /\
     MomentumSolution.dp sol = Scalar zero /\
     MomentumSolution.converged sol = true) /\
  (forall eps, exists sol,
     Heck.solve 0%py 0%py None eps = Some (sol, []) /\
     MomentumSolution.converged sol = false /\
     MomentumSolution.an sol = Scalar nan /\
     MomentumSolution.u4 sol = Scalar nan /\
     MomentumSolution.v4 sol = Scalar nan /\
     MomentumSolution.dp sol = Scalar zero) /\
  (one_per_element pf ->
   (forall x0 maxiter relax, exists sol lg,
      UnifiedMomentum.solve self 0%py 0%py x0 maxiter relax = Some (sol, lg) /\
      MomentumSolution.converged sol = false /\
      MomentumSolution.an sol = Arr [nan] /\
      MomentumSolution.u4 sol = Arr [nan] /\
      MomentumSolution.v4 sol = Arr [nan] /\
      MomentumSolution.dp sol = Arr [nan]) /\
   (forall x0 relax maxiter, exists sol lg,
      ThrustBasedUnified.solve self 0%py 0%py x0 relax maxiter = Some (sol, lg) /\
      MomentumSolution.converged sol = false /\
      (maxiter <> Some 0%nat -> MomentumSolution.an sol = Arr [nan]))).
Proof.
  intro Hnp. split; [|split].
  - destruct Hnp as [Hc Hs]. unfold LimitedHeck.solve. cbn. rewrite Hc, Hs.
    eexists. split; [reflexivity|]. repeat split.
  - intro eps.
    destruct (Heck_solve_zero_loading Hnp eps) as (sol & Hsol & Hc & _ & Hr).
    exists sol. auto.
  - intro Hpf. split.
    + intros x0 maxiter relax. apply Unified_solve_zero_loading; assumption.
    + intros x0 relax maxiter. apply ThrustBased_solve_zero_loading; assumption.
Qed.

Lemma C2_zero_loading_witness :
  exact_at_zero Reference.numpy /\
  one_per_element Reference.pressure /\
  (exists sol,
     LimitedHeck.solve (np := Reference.numpy) 0%py 0%py = Some (sol, []) /\
     MomentumSolution.converged sol = true) /\
  (exists sol lg,
     UnifiedMomentum.solve (np := Reference.numpy) (pf := Reference.pressure)
       (d := Reference.defaults) (UnifiedMomentum.init None) 0%py 0%py None None None
     = Some (sol, lg) /\
     MomentumSolution.converged sol = false).
Proof.
  split; [exact Reference_exact_at_zero|]. split; [exact Reference_one_per_element|].
  destruct (C2_zero_loading (np := Reference.numpy) (pf := Reference.pressure)
              (d := Reference.defaults) (UnifiedMomentum.init None)
              Reference_exact_at_zero) as ((sol & Hsol & _ & _ & _ & _ & Hc) & _ & Hu).
  split.
  - exists sol. auto.
  - destruct (proj1 (Hu Reference_one_per_element) None None None)
      as (sol' & lg & Hsol' & Hc' & _).
    exists sol', lg. auto.
Defined.

(** C2, as stated, fails for the iterative model: at [Ctprime = 0],
    [yaw = 0] its solve returns [converged = false] and [an] not-a-number. *)
Lemma C2_counterexample :
  exists sol,
    Heck.solve (np := Reference.numpy) (d := Reference.defaults) 0%py 0%py None None
    = Some (sol, []) /\
    MomentumSolution.converged sol = false /\
    MomentumSolution.an sol = Scalar nan /\
    MomentumSolution.u4 sol = Scalar nan.
Proof.
  eexists. split; [vm_compute; reflexivity|]. repeat split.
Qed.

(** ** Zero yaw *)

Lemma zero_or_nan_fmul_zero x : zero_or_nan (fmul x 0%py) = true.
Proof. destruct x; reflexivity. Qed.

Lemma zero_or_nan_fmul_one x : zero_or_nan x = true -> zero_or_nan (fmul x (fmul 1 1)%py) = true.
Proof. destruct x; try discriminate; reflexivity. Qed.

Lemma zero_or_nan_fopp x : zero_or_nan x = true -> zero_or_nan (fopp x) = true.
Proof. destruct x; try discriminate; reflexivity. Qed.

Lemma zero_or_nan_fdiv x y : zero_or_nan x = true -> zero_or_nan (fdiv x y) = true.
Proof. destruct x, y; try discriminate; reflexivity. Qed.

Lemma zero_or_nan_fsub x y :
  zero_or_nan x = true -> zero_or_nan y = true -> zero_or_nan (fsub x y) = true.
Proof. destruct x as [[|]| | |], y as [[|]| | |]; try discriminate; reflexivity. Qed.

Lemma zero_or_nan_fadd x y :
  zero_or_nan x = true -> zero_or_nan y = true -> zero_or_nan (fadd x y) = true.
Proof. destruct x as [[|]| | |], y as [[|]| | |]; try discriminate; reflexivity. Qed.

Lemma zero_or_nan_fmul_l r x : zero_or_nan x = true -> zero_or_nan (fmul r x) = true.
Proof. destruct r, x; try discriminate; reflexivity. Qed.

(** The update of a lateral velocity that is zero or not-a-number, by a
    residual [p - v] whose [p] is zero or not-a-number. *)
Lemma v4_update_zero_or_nan relax p v :
  zero_or_nan p = true -> zero_or_nan v = true ->
  zero_or_nan (fadd v (fmul relax (fsub p v))) = true.
Proof.
  intros Hp Hv. apply zero_or_nan_fadd; [exact Hv|].
  apply zero_or_nan_fmul_l, zero_or_nan_fsub; assumption.
Qed.

Lemma v4_update_zero relax eps p v :
  zero_or_nan p = true -> zero_or_nan v = true -> is_finite relax = true ->
  fltb (fabs (fsub p v)) eps = true ->
  is_zero (fadd v (fmul relax (fsub p v))) = true.
Proof.
  destruct p as [[|]| | |], v as [[|]| | |], relax as [[|]| | |[|] mr er];
    try discriminate; intros _ _ _ H; try reflexivity;
    destruct eps; cbv in H; discriminate.
Qed.

Section ZeroYaw.
Context {np : Numpy} {d : Defaults}.
Hypothesis Hnp : exact_at_zero np.

(** The closed-form lateral velocity at zero yaw. *)
Lemma Spec_v4_zero_yaw c : zero_or_nan (Spec.v4 c 0%py) = true.
Proof.
  destruct Hnp as [Hc Hs]. unfold Spec.v4, Spec.sq. rewrite Hc, Hs.
  apply zero_or_nan_fdiv, zero_or_nan_fopp, zero_or_nan_fmul_one, zero_or_nan_fmul_zero.
Qed.

Lemma LimitedHeck_v4_zero_yaw (Ctprime : val) sol lg :
  LimitedHeck.solve Ctprime 0%py = Some (sol, lg) ->
  vforallb zero_or_nan (MomentumSolution.v4 sol) = true.
Proof.
  intro H.
  apply LimitedHeck_solve_Some in H as (a & u4 & v4 & dp & _ & _ & Ev & _ & -> & _).
  cbn [MomentumSolution.make MomentumSolution.v4].
  apply vforallb_elt. intros i Hw.
  assert (E : elt v4 i = Spec.v4 (elt Ctprime i) 0%py).
  { unfold Spec.v4, Spec.k, Spec.sq.
    eapply proj1, elem_use; [|exact Ev|exact Hw]. elem_steps. }
  rewrite E. apply Spec_v4_zero_yaw.
Qed.

Lemma Heck_step_zero_yaw (Ctprime : val) relax eps x r l x' :
  is_finite relax = true ->
  v4_zero_or_nan x -> Heck.residual x Ctprime 0%py = Some (r, l) ->
  update relax x r = Some (x', []) ->
  v4_zero_or_nan x' /\ (below eps r = true -> v4_zero x').
Proof.
  destruct Hnp as [Hc Hs].
  intros Hrelax (a & u & v & -> & Hv) Hr Hu.
  unfold Heck.residual in Hr.
  binv Hr as ea l1 l1' E1 Hr. binv Hr as eu l2 l2' E2 Hr. binv Hr as ev l3 l3' E3 Hr.
  apply eval_Some in E3 as [E3 _]. apply np_array_Some in Hr as (-> & _ & _).
  apply update_cons in Hu as (a' & xs1 & -> & _ & Hu).
  apply update_cons in Hu as (u' & xs2 & -> & _ & Hu).
  apply update_cons in Hu as (v' & xs3 & -> & Ev' & Hu).
  destruct xs3; [|discriminate].
  assert (Hel : forall i, within v' i ->
            exists p, zero_or_nan p = true /\ zero_or_nan (elt v i) = true /\
                      within ev i /\
                      elt ev i = fsub p (elt v i) /\
                      elt v' i = fadd (elt v i) (fmul relax (fsub p (elt v i)))).
  { intros i Hw.
    eassert (H1 : elem (v + Scalar relax * ev)%py i _ _) by elem_steps.
    destruct (H1 v' Ev' Hw) as (Ev1 & Hwv & _ & Hwe).
    eassert (H2 : elem (-0.25 * Ctprime * (1 - a) ^ 2 * sin 0 * cos 0 ^ 2 - v)%py i _ _)
      by elem_steps.
    destruct (H2 ev E3 Hwe) as (Ev2 & _).
    cbn [elt] in Ev2. rewrite Hc, Hs in Ev2.
    eexists. split; [|split; [|split; [exact Hwe|split; [exact Ev2|]]]].
    - apply zero_or_nan_fmul_one, zero_or_nan_fmul_zero.
    - exact (proj1 (vforallb_elt _ _) Hv i Hwv).
    - rewrite Ev1, Ev2. reflexivity. }
  split.
  - eexists _, _, _. split; [reflexivity|]. apply vforallb_elt. intros i Hw.
    destruct (Hel i Hw) as (p & Hp & Hvi & _ & _ & ->).
    apply v4_update_zero_or_nan; assumption.
  - intro Hb. eexists _, _, _. split; [reflexivity|]. apply vforallb_elt. intros i Hw.
    destruct (Hel i Hw) as (p & Hp & Hvi & Hwe & Hev & ->).
    apply (v4_update_zero relax eps); try assumption.
    rewrite <- Hev. unfold below in Hb. cbn [forallb] in Hb.
    apply andb_prop in Hb as [_ Hb]. apply andb_prop in Hb as [_ Hb].
    apply andb_prop in Hb as [Hb _].
    exact (proj1 (vforallb_elt _ _) Hb i Hwe).
Qed.
End ZeroYaw.

Lemma Heck_relaxation_finite (Ctprime : val) relax l :
  Heck.relaxation Ctprime = Some (relax, l) -> is_finite relax = true.
Proof.
  unfold Heck.relaxation. intro H. binv H as m lm lm' Em H.
  apply ret_Some in H as [<- _]. destruct (fltb _ m); reflexivity.
Qed.




(** * Further properties of the models *)

(** ** Numbers: the sign of a rounded result *)

(** Rounding is symmetric in the sign. *)
Lemma binary_round_aux_opp s m e l :
  binary_round_aux prec emax (negb s) m e l = fopp (binary_round_aux prec emax s m e l).
Proof.
  unfold binary_round_aux.
  destruct (shr_fexp prec emax m e l) as [mrs e'].
  destruct (shr_fexp prec emax _ e' loc_Exact) as [mrs' e''].
  destruct (shr_m mrs'); [reflexivity| |reflexivity].
  destruct (Z.leb e'' (emax - prec)); reflexivity.
Qed.

Lemma fdiv_fopp_l x y : fdiv (fopp x) y = fopp (fdiv x y).
Proof.
  destruct x as [sx|sx| |sx mx ex], y as [sy|sy| |sy my ey];
    try reflexivity; unfold fdiv, fopp; cbn [SFopp SFdiv];
    try (rewrite <- negb_xorb_l; reflexivity).
  destruct (SFdiv_core_binary prec emax (Z.pos mx) ex (Z.pos my) ey) as [[mz ez] lz].
  rewrite <- negb_xorb_l. apply binary_round_aux_opp.
Qed.

Lemma zip_with_fdiv_fopp l1 : forall l2,
  zip_with fdiv (map fopp l1) l2 = map fopp (zip_with fdiv l1 l2).
Proof.
  induction l1 as [|x l1 IH]; intros [|y l2]; cbn [map zip_with]; try reflexivity.
  rewrite fdiv_fopp_l, IH. reflexivity.
Qed.

(** A quotient with a negated numerator is the negated quotient, on values
    as on numbers. *)
Lemma bop_fdiv_fopp_l (e1 e2 : ex) : bop fdiv (uop fopp e1) e2 = uop fopp (bop fdiv e1 e2).
Proof.
  destruct e1 as [[x|l1]|], e2 as [[y|l2]|]; try reflexivity;
    cbn [uop option_map vmap bop broadcast].
  - rewrite fdiv_fopp_l. reflexivity.
  - rewrite map_map. f_equal. f_equal. apply map_ext. intro a. apply fdiv_fopp_l.
  - rewrite !map_map. f_equal. f_equal. apply map_ext. intro a. apply fdiv_fopp_l.
  - destruct l1 as [|x1 [|x2 l1]]; cbn [map].
    + destruct l2 as [|y1 [|y2 l2]]; reflexivity.
    + cbn [uop option_map vmap]. rewrite map_map. f_equal. f_equal.
      apply map_ext. intro a. apply fdiv_fopp_l.
    + destruct l2 as [|y1 [|y2 l2]].
      * reflexivity.
      * cbn [uop option_map vmap map]. rewrite !fdiv_fopp_l, !map_map.
        f_equal. f_equal. f_equal. f_equal. apply map_ext. intro a. apply fdiv_fopp_l.
      * cbn [length]. rewrite !length_map.
        destruct (Nat.eqb _ _); [|reflexivity].
        cbn [uop option_map vmap]. f_equal. f_equal.
        exact (zip_with_fdiv_fopp (x1 :: x2 :: l1) (y1 :: y2 :: l2)).
Qed.

(** ** Shapes that do not broadcast *)

Lemma broadcast_None op a b :
  bshape (shape a) (shape b) = None -> broadcast op a b = None.
Proof.
  destruct a as [x|l1], b as [y|l2]; cbn [shape bshape broadcast]; try discriminate.
  destruct l1 as [|x1 [|x2 l1]], l2 as [|y1 [|y2 l2]]; cbn [length Nat.eqb];
    try discriminate; try reflexivity.
  destruct (Nat.eqb _ _); [discriminate|reflexivity].
Qed.

(** The closed-form model returns only for inputs that broadcast together. *)
Lemma LimitedHeck_solve_broadcasts {np : Numpy} Ctprime yaw sol lg :
  LimitedHeck.solve Ctprime yaw = Some (sol, lg) ->
  exists s, bshape (shape Ctprime) (shape yaw) = Some s.
Proof.
  intro H. destruct (bshape (shape Ctprime) (shape yaw)) as [s|] eqn:Hs; [eauto|].
  exfalso.
  apply LimitedHeck_solve_Some in H as (a & _ & _ & _ & Ea & _).
  assert (Hc : has_shape (cos yaw ^ 2)%py (shape yaw)) by (shape_steps; eauto with bshape).
  destruct Hc as (c & Ec & Hc). rewrite Ec in Ea.
  unfold pure in Ea. cbn [bop] in Ea. rewrite (broadcast_None fmul Ctprime c) in Ea by (rewrite Hc; exact Hs).
  discriminate.
Qed.

(** ** The initial guess of the unified model *)

(** The initial guess of [UnifiedMomentum] stacks the [an] and [u4] of the
    closed-form model, its [v4] with the opposite sign (the closed form
    negates the numerator, the guess does not), and zeros of the shape of
    [Ctprime], each as a row of at least one dimension.  The stack exists
    exactly when the closed-form fields and [Ctprime] have one shape as
    rows; otherwise, as for a scalar [Ctprime] with a [yaw] array of another
    length than one, on which the closed-form model returns, the guess and
    with it [UnifiedMomentum.solve] raise. *)
Theorem Unified_initial_guess_flips_v4 {np : Numpy} {pf : PressureField} {d : Defaults}
    (Ctprime yaw : val) (sol : MomentumSolution.t) (lg : list call) :
  LimitedHeck.solve Ctprime yaw = Some (sol, lg) ->
  let rows := [MomentumSolution.an sol; MomentumSolution.u4 sol;
               vmap fopp (MomentumSolution.v4 sol); zeros_like Ctprime] in
  UnifiedMomentum.initial_condition Ctprime yaw = vstack rows /\
  (shape (atleast_1d (MomentumSolution.an sol)) = shape (atleast_1d Ctprime) ->
   UnifiedMomentum.initial_condition Ctprime yaw = Some (map atleast_1d rows, [])) /\
  (shape (atleast_1d (MomentumSolution.an sol)) <> shape (atleast_1d Ctprime) ->
   UnifiedMomentum.initial_condition Ctprime yaw = None /\
   forall self x0 maxiter relax,
     UnifiedMomentum.solve self Ctprime yaw x0 maxiter relax = None).
Proof.
  intros H rows.
  pose proof H as H'.
  apply LimitedHeck_solve_Some in H' as (a & u4 & v4 & dp & Ea & Eu & Ev & Ed & -> & ->).
  destruct (LimitedHeck_solve_broadcasts _ _ _ _ H) as [s Hs].
  destruct (LimitedHeck_solve_total Ctprime yaw s Hs) as (sol' & Hsol' & Ha & Hu & Hv & _).
  rewrite H in Hsol'. injection Hsol' as <-.
  subst rows.
  cbn [MomentumSolution.make MomentumSolution.an MomentumSolution.u4 MomentumSolution.v4] in *.
  assert (E : UnifiedMomentum.initial_condition Ctprime yaw
              = vstack [a; u4; vmap fopp v4; zeros_like Ctprime]).
  { unfold UnifiedMomentum.initial_condition. rewrite Ea, Eu.
    rewrite bop_fdiv_fopp_l in Ev.
    destruct (4 * Ctprime * sin yaw * cos yaw ^ 2 / (4 + Ctprime * cos yaw ^ 2) ^ 2)%py
      as [w|] eqn:Ew; [|discriminate].
    cbn [uop option_map] in Ev. injection Ev as <-.
    cbn [eval bind ret app].
    assert (vmap fopp (vmap fopp w) = w) as ->.
    { destruct w as [x|l]; cbn [vmap].
      - f_equal. destruct x as [[|]|[|]| |[|] m e]; reflexivity.
      - f_equal. rewrite map_map. rewrite <- (map_id l) at 2. apply map_ext.
        intros [[|]|[|]| |[|] m e]; reflexivity. }
    destruct (vstack [a; u4; w; zeros_like Ctprime]) as [[r l]|]; reflexivity. }
  split; [exact E|].
  assert (Hrows : forall b, In b [a; u4; vmap fopp v4] -> shape (atleast_1d b) = shape (atleast_1d a)).
  { intros b [<-|[<-|[<-|[]]]]; apply shape_atleast_1d_eq; rewrite ?shape_vmap; congruence. }
  split.
  - intro Hc. rewrite E. unfold vstack, np_array.
    rewrite (uniform_shaped (shape (atleast_1d a))); [reflexivity|].
    cbn [map]. repeat apply Forall_cons; try apply Forall_nil.
    + reflexivity.
    + apply Hrows. cbn. auto.
    + apply Hrows. cbn. auto.
    + rewrite Hc. apply shape_atleast_1d_eq. unfold zeros_like. apply shape_vmap.
  - intro Hc.
    assert (En : UnifiedMomentum.initial_condition Ctprime yaw = None);
      [|split; [exact En|];
        intros self x0 maxiter relax; unfold UnifiedMomentum.solve; rewrite En; reflexivity].
    rewrite E. unfold vstack, np_array.
    cbn [map uniform forallb].
    assert (shape_eqb (shape (atleast_1d a)) (shape (atleast_1d (zeros_like Ctprime))) = false) as ->.
    { assert (Hz : shape (atleast_1d (zeros_like Ctprime)) = shape (atleast_1d Ctprime))
        by (apply shape_atleast_1d_eq; unfold zeros_like; apply shape_vmap).
      rewrite Hz. destruct (shape (atleast_1d a)) as [n|], (shape (atleast_1d Ctprime)) as [m|];
        cbn [shape_eqb]; try reflexivity; try congruence.
      apply Nat.eqb_neq. congruence. }
    rewrite !andb_false_r. reflexivity.
Qed.

Lemma Unified_initial_guess_flips_v4_witness :
  exists sol,
    LimitedHeck.solve (np := Reference.numpy) (Arr [2; 1]%py) 0.5%py = Some (sol, []) /\
    UnifiedMomentum.initial_condition (np := Reference.numpy) (Arr [2; 1]%py) 0.5%py
    = Some (map atleast_1d [MomentumSolution.an sol; MomentumSolution.u4 sol;
                            vmap fopp (MomentumSolution.v4 sol);
                            zeros_like (Arr [2; 1]%py)], []).
Proof.
  eexists. split; [vm_compute; reflexivity|].
  refine (proj1 (proj2 (Unified_initial_guess_flips_v4 (np := Reference.numpy)
                          (pf := Reference.pressure) (d := Reference.defaults)
                          (Arr [2; 1]%py) 0.5%py _ [] _)) _).
  - vm_compute. reflexivity.
  - reflexivity.
Defined.

(** ** The derived properties of a record, element by element *)

Lemma MomentumSolution_Ct_elt {np : Numpy} (s : MomentumSolution.t) v i :
  MomentumSolution.Ct s = Some v -> within v i ->
  elt v i = Spec.Ct (elt (MomentumSolution.Ctprime s) i) (elt (MomentumSolution.an s) i)
                    (elt (MomentumSolution.yaw s) i) /\
  within (MomentumSolution.Ctprime s) i /\ within (MomentumSolution.an s) i.
Proof.
  intros E Hw. unfold Spec.Ct, Spec.sq.
  assert (H : elem (MomentumSolution.Ct s) i
                (fmul (fmul (elt (MomentumSolution.Ctprime s) i)
                            (fmul (fsub 1 (elt (MomentumSolution.an s) i))
                                  (fsub 1 (elt (MomentumSolution.an s) i))))
                      (fmul (np_cos (elt (MomentumSolution.yaw s) i))
                            (np_cos (elt (MomentumSolution.yaw s) i))))
                _)
    by (unfold MomentumSolution.Ct; elem_steps).
  destruct (elem_use _ _ _ _ _ H E Hw) as [Hv HW]. split; [exact Hv|]. tauto.
Qed.

Lemma MomentumSolution_Cp_elt {np : Numpy} (s : MomentumSolution.t) v i :
  MomentumSolution.Cp s = Some v -> within v i ->
  elt v i = Spec.Cp (elt (MomentumSolution.Ctprime s) i) (elt (MomentumSolution.an s) i)
                    (elt (MomentumSolution.yaw s) i) /\
  within (MomentumSolution.an s) i.
Proof.
  intros E Hw. unfold Spec.Cp, Spec.cube.
  assert (H : elem (MomentumSolution.Cp s) i
                (fmul (elt (MomentumSolution.Ctprime s) i)
                   (fmul (fmul (fmul (fsub 1 (elt (MomentumSolution.an s) i))
                                     (np_cos (elt (MomentumSolution.yaw s) i)))
                               (fmul (fsub 1 (elt (MomentumSolution.an s) i))
                                     (np_cos (elt (MomentumSolution.yaw s) i))))
                         (fmul (fsub 1 (elt (MomentumSolution.an s) i))
                               (np_cos (elt (MomentumSolution.yaw s) i)))))
                _)
    by (unfold MomentumSolution.Cp; elem_steps).
  destruct (elem_use _ _ _ _ _ H E Hw) as [Hv HW]. split; [exact Hv|]. tauto.
Qed.

Lemma MomentumSolution_x0_elt {np : Numpy} (s : MomentumSolution.t) v i :
  MomentumSolution.x0 s = Some v -> within v i ->
  elt v i = Spec.x0 (elt (MomentumSolution.an s) i) (elt (MomentumSolution.u4 s) i)
                    (elt (MomentumSolution.yaw s) i) (elt (MomentumSolution.beta s) i) /\
  within (MomentumSolution.an s) i /\ within (MomentumSolution.beta s) i.
Proof.
  intros E Hw. unfold Spec.x0.
  assert (H : elem (MomentumSolution.x0 s) i
                (fdiv (fmul (np_cos (elt (MomentumSolution.yaw s) i))
                         (fsqrt (fdiv (fmul (fsub 1 (elt (MomentumSolution.an s) i))
                                            (np_cos (elt (MomentumSolution.yaw s) i)))
                                      (fadd 1 (elt (MomentumSolution.u4 s) i)))))
                      (fmul (fdiv 2 (fadd 1 (elt (MomentumSolution.u4 s) i)))
                            (fdiv (fmul (elt (MomentumSolution.beta s) i)
                                        (fsub 1 (elt (MomentumSolution.u4 s) i))) 2)))
                _)
    by (unfold MomentumSolution.x0; elem_steps).
  destruct (elem_use _ _ _ _ _ H E Hw) as [Hv HW]. split; [exact Hv|]. tauto.
Qed.

(** ** Numbers: division by zero and not-a-number operands *)

Lemma zero_or_nan_fmul_zero_l z x : is_zero z = true -> zero_or_nan (fmul z x) = true.
Proof. destruct z; try discriminate. destruct x; reflexivity. Qed.

Lemma fdiv_zero_or_nan_inf_or_nan x y : zero_or_nan y = true -> inf_or_nan (fdiv x y) = true.
Proof. destruct y; try discriminate; destruct x; reflexivity. Qed.

Lemma fmul_nan_l x : fmul nan x = nan.
Proof. reflexivity. Qed.

Lemma fdiv_nan_l x : fdiv nan x = nan.
Proof. reflexivity. Qed.

Lemma fdiv_nan_r x : fdiv x nan = nan.
Proof. destruct x; reflexivity. Qed.

Lemma is_nan_eq x : is_nan x = true -> x = nan.
Proof. destruct x; try discriminate; reflexivity. Qed.

Lemma Spec_x0_zero_beta {np : Numpy} an u4 yaw beta :
  is_zero beta = true -> inf_or_nan (Spec.x0 an u4 yaw beta) = true.
Proof.
  intro Hb. unfold Spec.x0. apply fdiv_zero_or_nan_inf_or_nan.
  apply zero_or_nan_fmul_l. apply zero_or_nan_fdiv.
  apply zero_or_nan_fmul_zero_l. exact Hb.
Qed.

Lemma Spec_Ct_nan {np : Numpy} c y : Spec.Ct c nan y = nan.
Proof.
  unfold Spec.Ct, Spec.sq. rewrite fsub_nan_r, fmul_nan_l, fmul_nan_r. apply fmul_nan_l.
Qed.

Lemma Spec_Cp_nan {np : Numpy} c y : Spec.Cp c nan y = nan.
Proof.
  unfold Spec.Cp, Spec.cube. rewrite fsub_nan_r, !fmul_nan_l. apply fmul_nan_r.
Qed.

Lemma Spec_x0_nan {np : Numpy} u4 yaw beta : Spec.x0 nan u4 yaw beta = nan.
Proof.
  unfold Spec.x0. rewrite fsub_nan_r, fmul_nan_l, fdiv_nan_l.
  change (fsqrt nan) with nan. rewrite fmul_nan_r. apply fdiv_nan_l.
Qed.

(** A record without [beta]: its near-wake length divides by zero. *)
Lemma x0_zero_beta {np : Numpy} (s : MomentumSolution.t) v :
  vforallb is_zero (MomentumSolution.beta s) = true ->
  MomentumSolution.x0 s = Some v -> vforallb inf_or_nan v = true.
Proof.
  intros Hb E. apply vforallb_elt. intros i Hw.
  destruct (MomentumSolution_x0_elt s v i E Hw) as (-> & _ & Hwb).
  apply Spec_x0_zero_beta. exact (proj1 (vforallb_elt _ _) Hb i Hwb).
Qed.

(** A record whose [an] is not-a-number has not-a-number coefficients. *)
Lemma coefficients_nan {np : Numpy} (s : MomentumSolution.t) :
  vforallb is_nan (MomentumSolution.an s) = true ->
  (forall v, MomentumSolution.Ct s = Some v -> vforallb is_nan v = true) /\
  (forall v, MomentumSolution.Cp s = Some v -> vforallb is_nan v = true) /\
  (forall v, MomentumSolution.x0 s = Some v -> vforallb is_nan v = true).
Proof.
  intro Ha. split; [|split]; intros v E; apply vforallb_elt; intros i Hw.
  - destruct (MomentumSolution_Ct_elt s v i E Hw) as (-> & _ & Hwa).
    rewrite (is_nan_eq _ (proj1 (vforallb_elt _ _) Ha i Hwa)), Spec_Ct_nan. reflexivity.
  - destruct (MomentumSolution_Cp_elt s v i E Hw) as (-> & Hwa).
    rewrite (is_nan_eq _ (proj1 (vforallb_elt _ _) Ha i Hwa)), Spec_Cp_nan. reflexivity.
  - destruct (MomentumSolution_x0_elt s v i E Hw) as (-> & Hwa & _).
    rewrite (is_nan_eq _ (proj1 (vforallb_elt _ _) Ha i Hwa)), Spec_x0_nan. reflexivity.
Qed.

(** ** The near-wake length of the records of the two models without [beta] *)

(** The records of [LimitedHeck.solve] and of [Heck.solve] carry the
    dataclass default [beta = 0.0], so the denominator of their [x0] property
    is zero or not-a-number: whenever [x0] evaluates on such a record, every
    element of it is an infinity or not-a-number, whatever the inputs. *)
Theorem x0_undefined_without_beta {np : Numpy} {d : Defaults} (Ctprime yaw : val)
    (x0 : option state) (eps : option float) (sol : MomentumSolution.t)
    (lg : list call) (v : val) :
  LimitedHeck.solve Ctprime yaw = Some (sol, lg) \/
  Heck.solve Ctprime yaw x0 eps = Some (sol, lg) ->
  MomentumSolution.x0 sol = Some v ->
  MomentumSolution.beta sol = Scalar zero /\ vforallb inf_or_nan v = true.
Proof.
  intros H E.
  assert (Hb : MomentumSolution.beta sol = Scalar zero).
  { destruct H as [H|H].
    - apply LimitedHeck_solve_Some in H as (a & u4 & v4 & dp & _ & _ & _ & _ & -> & _).
      reflexivity.
    - apply Heck_solve_Some in H
        as (x0' & l0 & relax & res & l1 & a & u4 & v4 & _ & _ & _ & _ & -> & _).
      reflexivity. }
  split; [exact Hb|]. apply (x0_zero_beta sol v); [|exact E]. rewrite Hb. reflexivity.
Qed.

Lemma x0_undefined_without_beta_witness :
  exists sol v,
    LimitedHeck.solve (np := Reference.numpy) (Arr [2; 1]%py) 0.5%py = Some (sol, []) /\
    MomentumSolution.x0 (np := Reference.numpy) sol = Some v /\
    MomentumSolution.beta sol = Scalar zero /\ vforallb inf_or_nan v = true.
Proof.
  eexists. eexists. split; [vm_compute; reflexivity|]. split; [vm_compute; reflexivity|].
  refine (x0_undefined_without_beta (np := Reference.numpy) (d := Reference.defaults)
            (Arr [2; 1]%py) 0.5%py None None _ [] _ (or_introl _) _).
  - vm_compute. reflexivity.
  - vm_compute. reflexivity.
Defined.

(** ** The coefficients of a record that did not converge *)

(** A record of [Heck.solve] or of [UnifiedMomentum.solve] with
    [converged = false] has [an] not-a-number in every element, and so have
    its derived properties: whenever [Ct], [Cp] or [x0] evaluates on it,
    every element is not-a-number. *)
Theorem nonconverged_coefficients_nan {np : Numpy} {pf : PressureField} {d : Defaults}
    (self : UnifiedMomentum.t) (Ctprime yaw : val) (x0 : option state)
    (eps relax : option float) (maxiter : option nat) (sol : MomentumSolution.t)
    (lg : list call) :
  Heck.solve Ctprime yaw x0 eps = Some (sol, lg) \/
  UnifiedMomentum.solve self Ctprime yaw x0 maxiter relax = Some (sol, lg) ->
  MomentumSolution.converged sol = false ->
  vforallb is_nan (MomentumSolution.an sol) = true /\
  (forall v, MomentumSolution.Ct sol = Some v -> vforallb is_nan v = true) /\
  (forall v, MomentumSolution.Cp sol = Some v -> vforallb is_nan v = true) /\
  (forall v, MomentumSolution.x0 sol = Some v -> vforallb is_nan v = true).
Proof.
  intros H Hc.
  assert (Ha : vforallb is_nan (MomentumSolution.an sol) = true).
  { destruct H as [H|H].
    - apply Heck_solve_Some in H
        as (x0' & l0 & rl & res & l1 & a & u4 & v4 & _ & _ & _ & Hs & -> & _).
      cbn [MomentumSolution.converged MomentumSolution.an] in *.
      rewrite Hc in Hs. apply nan_like_Some in Hs as [Hs _].
      destruct x0' as [|a0 x0']; [discriminate|].
      cbn [map] in Hs. injection Hs as -> _. apply vforallb_nan_like.
    - apply Unified_solve_Some in H
        as (x0' & res & l1 & a & u4 & v4 & dp & p_g & l2 & _ & _ & Hs & _ & -> & _).
      cbn [MomentumSolution.converged MomentumSolution.an] in *.
      rewrite Hc in Hs. apply nan_like_Some in Hs as [Hs _].
      destruct x0' as [|a0 x0']; [discriminate|].
      cbn [map] in Hs. injection Hs as -> _. apply vforallb_nan_like. }
  split; [exact Ha|]. apply coefficients_nan. exact Ha.
Qed.

Lemma nonconverged_coefficients_nan_witness :
  exists sol v,
    Heck.solve (np := Reference.numpy) (d := Reference.defaults) 2%py 0%py None (Some 0%py)
    = Some (sol, []) /\
    MomentumSolution.Ct (np := Reference.numpy) sol = Some v /\
    vforallb is_nan v = true.
Proof.
  eexists. eexists. split; [vm_compute; reflexivity|]. split; [vm_compute; reflexivity|].
  refine (proj1 (proj2 (nonconverged_coefficients_nan (np := Reference.numpy)
                          (pf := Reference.pressure) (d := Reference.defaults)
                          (UnifiedMomentum.init None) 2%py 0%py None (Some 0%py) None None
                          _ [] (or_introl _) _)) _ _).
  - vm_compute. reflexivity.
  - reflexivity.
  - vm_compute. reflexivity.
Defined.

(** ** Inputs the closed-form model rejects *)

(** [LimitedHeck.solve] raises exactly when the shapes of [Ctprime] and
    [yaw] do not broadcast together: two arrays of different lengths, neither
    of length one.  On every other pair of inputs it returns. *)
Theorem LimitedHeck_raises_iff {np : Numpy} (Ctprime yaw : val) :
  LimitedHeck.solve Ctprime yaw = None <-> bshape (shape Ctprime) (shape yaw) = None.
Proof.
  split.
  - intro H. destruct (bshape (shape Ctprime) (shape yaw)) as [s|] eqn:Hs; [|reflexivity].
    destruct (LimitedHeck_solve_total Ctprime yaw s Hs) as (sol & Hsol & _).
    rewrite H in Hsol. discriminate.
  - intro H. destruct (LimitedHeck.solve Ctprime yaw) as [[sol lg]|] eqn:E; [|reflexivity].
    destruct (LimitedHeck_solve_broadcasts _ _ _ _ E) as [s Hs]. rewrite H in Hs.
    discriminate.
Qed.

(** ** The largest loading and not-a-number *)

Lemma fmaximum_nan_l y : fmaximum nan y = nan.
Proof. reflexivity. Qed.

Lemma fmaximum_nan_r x : fmaximum x nan = nan.
Proof. destruct x; reflexivity. Qed.

Lemma fold_maximum_nan l : forall x,
  is_nan x = true \/ existsb is_nan l = true -> fold_left fmaximum l x = nan.
Proof.
  induction l as [|y l IH]; intros x H; cbn [fold_left existsb] in *.
  - destruct H as [H|H]; [apply is_nan_eq; exact H|discriminate].
  - apply IH. destruct H as [H|H].
    + left. rewrite (is_nan_eq _ H). reflexivity.
    + apply orb_true_iff in H as [H|H]; [|right; exact H].
      left. rewrite (is_nan_eq _ H), fmaximum_nan_r. reflexivity.
Qed.

Lemma np_max_nan a : vexistsb is_nan a = true -> np_max a = Some nan.
Proof.
  destruct a as [x|[|x l]]; cbn [np_max vexistsb existsb].
  - intro H. rewrite (is_nan_eq _ H). reflexivity.
  - discriminate.
  - intro H. f_equal. apply fold_maximum_nan. apply orb_true_iff. exact H.
Qed.



(** ** An empty array of loadings *)

(** On an empty [Ctprime] array the closed-form model returns a record of
    empty fields, while [Heck.solve] raises for every yaw, initial guess and
    tolerance: [np.max] of an empty array has no value. *)
Theorem Heck_rejects_empty_loading {np : Numpy} {d : Defaults} (y : float) (yaw : val)
    (x0 : option state) (eps : option float) :
  LimitedHeck.solve (Arr []) y
  = Some (MomentumSolution.make (Arr []) y (Arr []) (Arr []) (Arr []) (Arr []), []) /\
  Heck.solve (Arr []) yaw x0 eps = None.
Proof.
  split; [reflexivity|].
  unfold Heck.solve.
  destruct (match x0 with
            | None => Heck.initial_condition (Arr []) yaw
            | Some x1 => ret x1
            end) as [[x0' l0]|]; reflexivity.
Qed.

(** ** An initial guess with the wrong number of unknowns *)

(** [Heck.solve] unpacks three unknowns from the state, in the residual and
    again after the iteration: a supplied initial guess [x0] with another
    number of rows makes it raise, whatever the inputs, the tolerance and
    the number of evaluations the engine is allowed. *)
Theorem Heck_rejects_x0_of_wrong_length {np : Numpy} {d : Defaults} (Ctprime yaw : val)
    (x0 : state) (eps : option float) :
  length x0 <> 3%nat -> Heck.solve Ctprime yaw (Some x0) eps = None.
Proof.
  intro Hl.
  destruct (Heck.solve Ctprime yaw (Some x0) eps) as [[sol lg]|] eqn:H; [|reflexivity].
  exfalso. apply Hl.
  apply Heck_solve_Some in H
    as (x0' & l0 & relax & res & l1 & a & u4 & v4 & E0 & _ & Hi & Hs & _ & _).
  apply ret_Some in E0 as [<- _].
  destruct (converged res).
  - apply ret_Some in Hs as [Hs _]. unfold fixedpointiteration in Hi.
    apply iterate_length in Hi. rewrite <- Hi, Hs. reflexivity.
  - apply nan_like_Some in Hs as [Hs _].
    rewrite <- (length_map (fun a => vmap (fmul nan) (zeros_like a)) x0), <- Hs.
    reflexivity.
Qed.

Lemma Heck_rejects_x0_of_wrong_length_witness :
  Heck.solve (np := Reference.numpy) (d := Reference.defaults) 2%py 0%py
    (Some [Scalar 0.5%py; Scalar 0.5%py]) None = None.
Proof.
  apply (Heck_rejects_x0_of_wrong_length (np := Reference.numpy) (d := Reference.defaults)).
  cbn [length]. lia.
Defined.

(** ** The pressure call and the derived properties of the record *)

(** The arguments of the call [_nonlinear_pressure] makes are the [Ct] and
    [x0] properties of any record that holds the same [Ctprime], [yaw],
    [an], [u4] and [beta]. *)
Lemma nonlinear_pressure_record {np : Numpy} {pf : PressureField}
    (self : UnifiedMomentum.t) (Ctprime yaw an u4 v4 dp dp_NL : val) (n : nat) (c : bool)
    (p : val) (l : list call) :
  UnifiedMomentum._nonlinear_pressure self Ctprime yaw an u4 = Some (p, l) ->
  exists ct half x0v,
    MomentumSolution.Ct (MomentumSolution.mk Ctprime yaw an u4 v4 dp dp_NL n c
                           (UnifiedMomentum.beta self)) = Some ct /\
    (ct / 2)%py = Some half /\
    MomentumSolution.x0 (MomentumSolution.mk Ctprime yaw an u4 v4 dp dp_NL n c
                           (UnifiedMomentum.beta self)) = Some x0v /\
    l = [(half, x0v)] /\ p = get_pressure half x0v.
Proof.
  unfold UnifiedMomentum._nonlinear_pressure. intro H.
  binv H as x0v l0 l0' E0 H. apply eval_Some in E0 as [E0 ->].
  binv H as ct l1 l1' E1 H. apply eval_Some in E1 as [E1 ->].
  binv H as half l2 l2' E2 H. apply eval_Some in E2 as [E2 ->].
  unfold call_get_pressure in H. injection H as <- <-.
  exists ct, half, x0v. split; [exact E1|]. split; [exact E2|]. split; [exact E0|].
  split; reflexivity.
Qed.

(** The [dp_NL] of the record [UnifiedMomentum.solve] returns is the answer
    of the pressure field to [Ct / 2] and [x0], where [Ct] and [x0] are the
    derived properties of that same record; this call is the last one the
    solve makes. *)
Theorem Unified_dp_NL_of_record {np : Numpy} {pf : PressureField} {d : Defaults}
    (self : UnifiedMomentum.t) (Ctprime yaw : val) (x0 : option state)
    (maxiter : option nat) (relax : option float) (sol : MomentumSolution.t)
    (lg : list call) :
  UnifiedMomentum.solve self Ctprime yaw x0 maxiter relax = Some (sol, lg) ->
  exists ct half x0v lg_iter,
    MomentumSolution.Ct sol = Some ct /\
    (ct / 2)%py = Some half /\
    MomentumSolution.x0 sol = Some x0v /\
    MomentumSolution.dp_NL sol = get_pressure half x0v /\
    lg = lg_iter ++ [(half, x0v)].
Proof.
  intro H.
  apply Unified_solve_Some in H
    as (x0' & res & l1 & a & u4 & v4 & dp & p_g & l2 & _ & _ & _ & Ep & -> & ->).
  destruct (nonlinear_pressure_record self Ctprime yaw a u4 v4 dp p_g (niter res)
              (converged res) p_g l2 Ep) as (ct & half & x0v & Ect & Eh & Ex & -> & Hp).
  exists ct, half, x0v, l1. auto.
Qed.

Lemma Unified_dp_NL_of_record_witness :
  exists sol lg ct half x0v lg_iter,
    UnifiedMomentum.solve (np := Reference.numpy) (pf := Reference.pressure)
      (d := Reference.defaults) (UnifiedMomentum.init None) 2%py 0%py None None None
    = Some (sol, lg) /\
    MomentumSolution.Ct (np := Reference.numpy) sol = Some ct /\
    (ct / 2)%py = Some half /\
    MomentumSolution.x0 (np := Reference.numpy) sol = Some x0v /\
    MomentumSolution.dp_NL sol = get_pressure (PressureField := Reference.pressure) half x0v /\
    lg = lg_iter ++ [(half, x0v)].
Proof.
  eexists _, _.
  match goal with |- exists ct half x0v lg_iter, ?s = Some (?sol, ?lg) /\ _ =>
    assert (E : s = Some (sol, lg)) by (vm_compute; reflexivity);
    destruct (Unified_dp_NL_of_record (np := Reference.numpy) (pf := Reference.pressure)
                (d := Reference.defaults) (UnifiedMomentum.init None) 2%py 0%py
                None None None sol lg E) as (ct & half & x0v & lg_iter & H)
  end.
  exists ct, half, x0v, lg_iter. split; [exact E|exact H].
Defined.

(** ** A unified solve that did not converge *)

(** When [UnifiedMomentum.solve] returns [converged = false], all four of
    [an], [u4], [v4] and [dp] are not-a-number in every element, and the
    pressure field is still called once more after the iteration: both
    arguments of that call are not-a-number in every element, and [dp_NL] is
    whatever the field answers to them. *)
Theorem Unified_nonconvergence {np : Numpy} {pf : PressureField} {d : Defaults}
    (self : UnifiedMomentum.t) (Ctprime yaw : val) (x0 : option state)
    (maxiter : option nat) (relax : option float) (sol : MomentumSolution.t)
    (lg : list call) :
  UnifiedMomentum.solve self Ctprime yaw x0 maxiter relax = Some (sol, lg) ->
  MomentumSolution.converged sol = false ->
  vforallb is_nan (MomentumSolution.an sol) = true /\
  vforallb is_nan (MomentumSolution.u4 sol) = true /\
  vforallb is_nan (MomentumSolution.v4 sol) = true /\
  vforallb is_nan (MomentumSolution.dp sol) = true /\
  exists half x0v lg_iter,
    lg = lg_iter ++ [(half, x0v)] /\
    MomentumSolution.dp_NL sol = get_pressure half x0v /\
    vforallb is_nan half = true /\
    vforallb is_nan x0v = true.
Proof.
  intros H Hc.
  apply Unified_solve_Some in H
    as (x0' & res & l1 & a & u4 & v4 & dp & p_g & l2 & _ & _ & Hs & Ep & -> & ->).
  cbn [MomentumSolution.converged MomentumSolution.an MomentumSolution.u4
       MomentumSolution.v4 MomentumSolution.dp MomentumSolution.dp_NL] in *.
  rewrite Hc in Hs. apply nan_like_Some in Hs as [Hs _].
  destruct x0' as [|a0 [|u0 [|v0 [|p0 [|]]]]]; try discriminate.
  cbn [map] in Hs. injection Hs as -> -> -> ->.
  repeat (split; [apply vforallb_nan_like|]).
  destruct (nonlinear_pressure_record self Ctprime yaw _ _
              (vmap (fmul nan) (zeros_like v0)) (vmap (fmul nan) (zeros_like p0))
              p_g (niter res) false p_g l2 Ep)
    as (ct & half & x0v & Ect & Eh & Ex & -> & Hp).
  exists half, x0v, l1. split; [reflexivity|]. split; [exact Hp|].
  match type of Ect with MomentumSolution.Ct ?s = _ =>
    destruct (coefficients_nan s (vforallb_nan_like a0)) as (Hct & _ & Hx0)
  end.
  split; [|exact (Hx0 _ Ex)].
  apply vforallb_elt. intros i Hw.
  assert (He : elem (ct / 2)%py i (fdiv (elt ct i) 2%py) _) by elem_steps.
  destruct (elem_use _ _ _ _ _ He Eh Hw) as [-> [Hwc _]].
  rewrite (is_nan_eq _ (proj1 (vforallb_elt _ _) (Hct _ Ect) i Hwc)). reflexivity.
Qed.

Lemma Unified_nonconvergence_witness :
  exists sol lg,
    UnifiedMomentum.solve (np := Reference.numpy) (pf := Reference.pressure)
      (d := Reference.defaults) (UnifiedMomentum.init None) 2%py 0%py None (Some 1%nat) None
    = Some (sol, lg) /\
    MomentumSolution.converged sol = false /\
    vforallb is_nan (MomentumSolution.dp sol) = true /\
    MomentumSolution.dp_NL sol = Arr [0.01%py].
Proof.
  eexists _, _. split; [vm_compute; reflexivity|]. split; [reflexivity|].
  split; [|reflexivity].
  match goal with |- vforallb is_nan (MomentumSolution.dp ?sol) = true =>
    refine (proj1 (proj2 (proj2 (proj2
              (Unified_nonconvergence (np := Reference.numpy) (pf := Reference.pressure)
                 (d := Reference.defaults) (UnifiedMomentum.init None) 2%py 0%py None
                 (Some 1%nat) None sol _ _ _)))))
  end.
  - vm_compute. reflexivity.
  - reflexivity.
Defined.

(** ** The lateral residual of the iterative models *)

(** [Heck.residual] and [UnifiedMomentum.residual] share the lateral
    equation: at the same [an], [v4], [Ctprime] and [yaw] their third
    residuals are the same value, the factor [-(1 / 4)] of the one being the
    [-0.25] of the other; it does not read [u4], [dp] or [beta]. *)
Theorem lateral_residual_shared {np : Numpy} {pf : PressureField}
    (self : UnifiedMomentum.t) (a u4 u4' v4 dp Ctprime yaw : val)
    (rH rU : state) (lH lU : list call) :
  Heck.residual [a; u4; v4] Ctprime yaw = Some (rH, lH) ->
  UnifiedMomentum.residual self [a; u4'; v4; dp] Ctprime yaw = Some (rU, lU) ->
  exists eH_a eH_u4 eU_an eU_u4 eU_dp e_v4,
    rH = [eH_a; eH_u4; e_v4] /\ rU = [eU_an; eU_u4; e_v4; eU_dp].
Proof.
  unfold Heck.residual, UnifiedMomentum.residual. intros HH HU.
  binv HH as e_a l0 l0' E0 HH. apply eval_Some in E0 as [_ ->].
  binv HH as e_u l1 l1' E1 HH. apply eval_Some in E1 as [_ ->].
  binv HH as e_v l2 l2' E2 HH. apply eval_Some in E2 as [E2 ->].
  apply np_array_Some in HH as (-> & -> & _).
  binv HU as p_g k0 k0' F0 HU.
  binv HU as x0 k1 k1' F1 HU. apply eval_Some in F1 as [_ ->].
  binv HU as f_a k2 k2' F2 HU. apply eval_Some in F2 as [_ ->].
  binv HU as f_u k3 k3' F3 HU. apply eval_Some in F3 as [_ ->].
  binv HU as f_v k4 k4' F4 HU. apply eval_Some in F4 as [F4 ->].
  binv HU as f_p k5 k5' F5 HU. apply eval_Some in F5 as [_ ->].
  apply ret_Some in HU as [<- _].
  assert (E : Some e_v = Some f_v) by (rewrite <- E2, <- F4; reflexivity).
  injection E as <-.
  exists e_a, e_u, f_a, f_u, f_p, e_v. split; reflexivity.
Qed.

Lemma lateral_residual_shared_witness :
  exists eH_a eH_u4 eU_an eU_u4 eU_dp e_v4 lU,
    Heck.residual (np := Reference.numpy) [Scalar 0.3%py; Scalar 0.5%py; Scalar 0.1%py]
      2%py 0.5%py = Some ([eH_a; eH_u4; e_v4], []) /\
    UnifiedMomentum.residual (np := Reference.numpy) (pf := Reference.pressure)
      (UnifiedMomentum.init None)
      [Scalar 0.3%py; Scalar 0.4%py; Scalar 0.1%py; Scalar 0%py] 2%py 0.5%py
    = Some ([eU_an; eU_u4; e_v4; eU_dp], lU).
Proof.
  destruct (lateral_residual_shared (np := Reference.numpy) (pf := Reference.pressure)
              (UnifiedMomentum.init None) 0.3%py 0.5%py 0.4%py 0.1%py 0%py 2%py 0.5%py
              _ _ _ _ eq_refl eq_refl)
    as (eH_a & eH_u4 & eU_an & eU_u4 & eU_dp & e_v4 & EH & EU).
  exists eH_a, eH_u4, eU_an, eU_u4, eU_dp, e_v4. eexists.
  rewrite <- EH, <- EU. split; reflexivity.
Defined.

(** ** The tangential-induction models *)

(** The radius clamped at the hub. *)
Lemma fmaximum_clamp mu : fltb (fmaximum mu 0.1%py) 0.1%py = false.
Proof.
  unfold fmaximum. destruct (is_nan mu) eqn:Hn.
  - rewrite (is_nan_eq _ Hn). reflexivity.
  - cbn [is_nan]. destruct (fltb mu 0.1%py) eqn:Hlt; [reflexivity|exact Hlt].
Qed.

Lemma fmaximum_below mu : fltb mu 0.1%py = true -> fmaximum mu 0.1%py = 0.1%py.
Proof.
  intro H. unfold fmaximum. rewrite H.
  destruct mu; try reflexivity. discriminate.
Qed.

Lemma zero_or_nan_fmul_r x y : zero_or_nan x = true -> zero_or_nan (fmul x y) = true.
Proof. destruct x; try discriminate; destruct y; reflexivity. Qed.

Lemma zero_or_nan_fmul_zero_r x z : is_zero z = true -> zero_or_nan (fmul x z) = true.
Proof. destruct z; try discriminate; destruct x; reflexivity. Qed.

Lemma fmul_inf_or_nan_l x y : inf_or_nan x = true -> inf_or_nan (fmul x y) = true.
Proof. destruct x; try discriminate; destruct y; reflexivity. Qed.

Section Tangential.
Context {np : Numpy} {RotorDefinition : Type}.

(** [DefaultTangentialInduction], element by element. *)
Lemma DefaultTangentialInduction_elt aero (pitch tsr yaw : val) (rotor : RotorDefinition)
    geom r lg i :
  TangentialInduction.DefaultTangentialInduction aero pitch tsr yaw rotor geom
  = Some (r, lg) ->
  within r i ->
  lg = [] /\
  elt r i = TangentialInduction.aprime
              (elt (TangentialInduction.solidity aero) i)
              (elt (TangentialInduction.mu_mesh geom) i)
              (elt tsr i)
              (elt (TangentialInduction.an aero) i)
              (elt yaw i)
              (elt (TangentialInduction.W aero) i)
              (elt (TangentialInduction.Ctan aero) i).
Proof.
  unfold TangentialInduction.DefaultTangentialInduction. intros H Hw.
  binv H as t l0 l0' E0 H. apply eval_Some in E0 as [E0 ->].
  binv H as ap l1 l1' E1 H. apply eval_Some in E1 as [E1 ->].
  apply ret_Some in H as [<- ->]. split; [reflexivity|].
  unfold TangentialInduction.aprime, Spec.sq.
  assert (Ht : elem (pure t) i
                 (fmul (fmul (elt (TangentialInduction.W aero) i)
                             (elt (TangentialInduction.W aero) i))
                       (elt (TangentialInduction.Ctan aero) i)) True).
  { intros t' [= <-] Hwt. split; [|exact I].
    eapply proj1, elem_use; [|exact E0|exact Hwt]. elem_steps. }
  eapply proj1, elem_use; [|exact E1|exact Hw].
  unfold TangentialInduction.maximum. elem_steps. exact Ht.
Qed.
End Tangential.

(** [DefaultTangentialInduction] clamps the radius at the hub: each element
    of its result is [solidity / (4 * max(mu, 0.1)^2 * tsr * (1 - an) *
    cos(yaw)) * (W^2 * Ctan)] on the corresponding elements of its inputs;
    the radius that enters is never below 0.1, and at every radius below 0.1
    the result is the one at [mu = 0.1].  The model makes no call and reads
    neither [pitch] nor [rotor]; it returns whenever the five grid arrays
    have one shape and [tsr] and [yaw] are numbers. *)
Theorem DefaultTangentialInduction_hub_clamp {np : Numpy} {RotorDefinition : Type}
    (aero : TangentialInduction.AerodynamicProperties) (pitch tsr yaw : val)
    (rotor : RotorDefinition) (geom : TangentialInduction.BEMGeometry) :
  (forall r lg,
     TangentialInduction.DefaultTangentialInduction aero pitch tsr yaw rotor geom
     = Some (r, lg) ->
     lg = [] /\
     (forall pitch' (rotor' : RotorDefinition),
        TangentialInduction.DefaultTangentialInduction aero pitch' tsr yaw rotor' geom
        = Some (r, lg)) /\
     forall i, within r i ->
       fltb (fmaximum (elt (TangentialInduction.mu_mesh geom) i) 0.1%py) 0.1%py = false /\
       elt r i = TangentialInduction.aprime
                   (elt (TangentialInduction.solidity aero) i)
                   (elt (TangentialInduction.mu_mesh geom) i)
                   (elt tsr i)
                   (elt (TangentialInduction.an aero) i)
                   (elt yaw i)
                   (elt (TangentialInduction.W aero) i)
                   (elt (TangentialInduction.Ctan aero) i) /\
       (fltb (elt (TangentialInduction.mu_mesh geom) i) 0.1%py = true ->
        elt r i = TangentialInduction.aprime
                    (elt (TangentialInduction.solidity aero) i)
                    0.1%py
                    (elt tsr i)
                    (elt (TangentialInduction.an aero) i)
                    (elt yaw i)
                    (elt (TangentialInduction.W aero) i)
                    (elt (TangentialInduction.Ctan aero) i))) /\
  (forall s,
     shape (TangentialInduction.an aero) = s ->
     shape (TangentialInduction.W aero) = s ->
     shape (TangentialInduction.Ctan aero) = s ->
     shape (TangentialInduction.solidity aero) = s ->
     shape (TangentialInduction.mu_mesh geom) = s ->
     shape tsr = None -> shape yaw = None ->
     exists r,
       TangentialInduction.DefaultTangentialInduction aero pitch tsr yaw rotor geom
       = Some (r, []) /\
       shape r = s).
Proof.
  split.
  - intros r lg H. split; [|split].
    + unfold TangentialInduction.DefaultTangentialInduction in H.
      binv H as t l0 l0' E0 H. apply eval_Some in E0 as [_ ->].
      binv H as ap l1 l1' E1 H. apply eval_Some in E1 as [_ ->].
      apply ret_Some in H as [_ ->]. reflexivity.
    + intros pitch' rotor'. exact H.
    + intros i Hw. split; [apply fmaximum_clamp|].
      destruct (DefaultTangentialInduction_elt _ _ _ _ _ _ _ _ i H Hw) as [_ Hr].
      split; [exact Hr|].
      intro Hlt. rewrite Hr. unfold TangentialInduction.aprime.
      rewrite (fmaximum_below _ Hlt). reflexivity.
  - intros s Han HW HC Hso Hmu Ht Hy.
    unfold TangentialInduction.DefaultTangentialInduction.
    assert (H1 : has_shape (TangentialInduction.W aero ^ 2 * TangentialInduction.Ctan aero)%py s)
      by (shape_steps; rewrite ?HW, ?HC; eauto with bshape).
    destruct H1 as (t & -> & Hts). cbn [eval bind ret app].
    assert (H2 : has_shape
                   (TangentialInduction.solidity aero
                    / (4 * TangentialInduction.maximum (TangentialInduction.mu_mesh geom) 0.1 ^ 2
                       * tsr * (1 - TangentialInduction.an aero) * cos yaw)
                    * t)%py s).
    { unfold TangentialInduction.maximum. shape_steps.
      all: rewrite ?Han, ?Hso, ?Hmu, ?Ht, ?Hy, ?Hts; eauto with bshape. }
    destruct H2 as (r & -> & Hrs). cbn [eval bind ret app].
    exists r. split; [reflexivity|exact Hrs].
Qed.

Lemma DefaultTangentialInduction_hub_clamp_witness :
  exists r,
    TangentialInduction.DefaultTangentialInduction (np := Reference.numpy)
      (TangentialInduction.mkAero (Arr [0.3; 0.3]%py) (Arr [1; 1]%py) (Arr [0.1; 0.1]%py)
         (Arr [0.05; 0.05]%py))
      0%py 7%py 0%py tt (TangentialInduction.mkGeometry (Arr [0.02; 0.1]%py))
    = Some (r, []) /\
    fltb (elt (Arr [0.02; 0.1]%py) 0) 0.1%py = true /\
    elt r 0 = elt r 1.
Proof.
  eexists. split; [vm_compute; reflexivity|]. split; [reflexivity|].
  match goal with |- elt ?r 0 = _ =>
    destruct (proj1 (DefaultTangentialInduction_hub_clamp (np := Reference.numpy)
                       (TangentialInduction.mkAero (Arr [0.3; 0.3]%py) (Arr [1; 1]%py)
                          (Arr [0.1; 0.1]%py) (Arr [0.05; 0.05]%py))
                       0%py 7%py 0%py tt
                       (TangentialInduction.mkGeometry (Arr [0.02; 0.1]%py)))
                r [] ltac:(vm_compute; reflexivity)) as (_ & _ & Hi)
  end.
  destruct (Hi 0%nat ltac:(right; cbn; lia)) as (_ & _ & H0).
  destruct (Hi 1%nat ltac:(right; cbn; lia)) as (_ & H1 & _).
  rewrite (H0 eq_refl), H1. reflexivity.
Defined.

(** [DefaultTangentialInduction] has no guard on its denominator: wherever
    the tip-speed ratio is zero (a parked rotor), the axial induction is
    exactly 1 or the cosine of the yaw is zero, the result is an infinity or
    not-a-number. *)
Theorem DefaultTangentialInduction_singular {np : Numpy} {RotorDefinition : Type}
    (aero : TangentialInduction.AerodynamicProperties) (pitch tsr yaw : val)
    (rotor : RotorDefinition) (geom : TangentialInduction.BEMGeometry)
    (r : val) (lg : list call) (i : nat) :
  TangentialInduction.DefaultTangentialInduction aero pitch tsr yaw rotor geom
  = Some (r, lg) ->
  within r i ->
  is_zero (elt tsr i) = true \/
  elt (TangentialInduction.an aero) i = 1%py \/
  is_zero (np_cos (elt yaw i)) = true ->
  inf_or_nan (elt r i) = true.
Proof.
  intros H Hw Hz.
  destruct (DefaultTangentialInduction_elt _ _ _ _ _ _ _ _ i H Hw) as [_ ->].
  unfold TangentialInduction.aprime.
  apply fmul_inf_or_nan_l, fdiv_zero_or_nan_inf_or_nan.
  destruct Hz as [Hz|[Hz|Hz]].
  - apply zero_or_nan_fmul_r, zero_or_nan_fmul_r, zero_or_nan_fmul_zero_r. exact Hz.
  - apply zero_or_nan_fmul_r, zero_or_nan_fmul_zero_r. rewrite Hz. reflexivity.
  - apply zero_or_nan_fmul_zero_r. exact Hz.
Qed.

Lemma DefaultTangentialInduction_singular_witness :
  exists r,
    TangentialInduction.DefaultTangentialInduction (np := Reference.numpy)
      (TangentialInduction.mkAero (Arr [0.3; 0.3]%py) (Arr [1; 1]%py) (Arr [0.1; 0.1]%py)
         (Arr [0.05; 0.05]%py))
      0%py 0%py 0%py tt (TangentialInduction.mkGeometry (Arr [0.5; 1]%py))
    = Some (r, []) /\
    inf_or_nan (elt r 0) = true.
Proof.
  eexists. split; [vm_compute; reflexivity|].
  match goal with |- inf_or_nan (elt ?r 0) = true =>
    apply (DefaultTangentialInduction_singular (np := Reference.numpy)
             (TangentialInduction.mkAero (Arr [0.3; 0.3]%py) (Arr [1; 1]%py)
                (Arr [0.1; 0.1]%py) (Arr [0.05; 0.05]%py))
             0%py 0%py 0%py tt (TangentialInduction.mkGeometry (Arr [0.5; 1]%py)) r [] 0%nat)
  end.
  - vm_compute. reflexivity.
  - right. cbn. lia.
  - left. reflexivity.
Defined.

(** ** The sign of the thrust coefficient *)

(** A rounded result has the sign it was given. *)
Lemma binary_round_aux_not_negative m e l :
  not_negative (binary_round_aux prec emax false m e l) = true.
Proof.
  unfold binary_round_aux.
  destruct (shr_fexp prec emax m e l) as [mrs e'].
  destruct (shr_fexp prec emax _ e' loc_Exact) as [mrs' e''].
  destruct (shr_m mrs'); [reflexivity| |reflexivity].
  destruct (Z.leb e'' (emax - prec)); reflexivity.
Qed.

Lemma fmul_not_negative x y :
  not_negative x = true -> not_negative y = true -> not_negative (fmul x y) = true.
Proof.
  destruct x as [[|]|[|]| |[|] mx ex], y as [[|]|[|]| |[|] my ey];
    try discriminate; intros _ _; try reflexivity.
  apply binary_round_aux_not_negative.
Qed.

Lemma sq_not_negative x : not_negative (Spec.sq x) = true.
Proof.
  unfold Spec.sq. destruct x as [[|]|[|]| |s m e]; try reflexivity.
  unfold fmul, SFmul. rewrite xorb_nilpotent. apply binary_round_aux_not_negative.
Qed.

Lemma Spec_Ct_not_negative {np : Numpy} c an y :
  not_negative c = true -> not_negative (Spec.Ct c an y) = true.
Proof.
  intro Hc. unfold Spec.Ct.
  apply fmul_not_negative; [apply fmul_not_negative; [exact Hc|]|]; apply sq_not_negative.
Qed.

(** The [Ct] property of a record is never negative where [Ctprime] is not:
    it multiplies [Ctprime] by two squares, and no rounding, overflow or
    not-a-number makes an element of the product compare below zero,
    whatever [an] and [yaw]. *)
Theorem Ct_not_negative {np : Numpy} (s : MomentumSolution.t) (v : val) :
  vforallb not_negative (MomentumSolution.Ctprime s) = true ->
  MomentumSolution.Ct s = Some v ->
  vforallb not_negative v = true.
Proof.
  intros Hc E. apply vforallb_elt. intros i Hw.
  destruct (MomentumSolution_Ct_elt s v i E Hw) as (-> & Hwc & _).
  apply Spec_Ct_not_negative. exact (proj1 (vforallb_elt _ _) Hc i Hwc).
Qed.

Lemma Ct_not_negative_witness :
  exists v,
    MomentumSolution.Ct (np := Reference.numpy)
      (MomentumSolution.make (Arr [2; 0]%py) 0.5%py (Arr [1.5; 0.2]%py) 0%py 0%py 0%py)
    = Some v /\
    vforallb not_negative v = true.
Proof.
  eexists. split; [vm_compute; reflexivity|].
  apply (Ct_not_negative (np := Reference.numpy)
           (MomentumSolution.make (Arr [2; 0]%py) 0.5%py (Arr [1.5; 0.2]%py) 0%py 0%py 0%py)).
  - reflexivity.
  - vm_compute. reflexivity.
Defined.

(** ** What the pressure field is asked in a residual evaluation *)

(** Every evaluation of [UnifiedMomentum.residual] that returns makes
    exactly one call to the pressure field, with the arguments [Ct / 2] and
    [x0] of the record that holds the current state; and so does
    [ThrustBasedUnified.residual], where the [Ctprime] of that record is the
    fifth unknown of the state, not the thrust coefficient [Ct] the model is
    driven by, which the call does not depend on. *)
Theorem residual_pressure_call {np : Numpy} {pf : PressureField}
    (self : UnifiedMomentum.t) (an u4 v4 dp Ctprime yaw : val) :
  let record := MomentumSolution.mk Ctprime yaw an u4 v4 dp 0.0%py 1 true
                  (UnifiedMomentum.beta self) in
  (forall r l,
     UnifiedMomentum.residual self [an; u4; v4; dp] Ctprime yaw = Some (r, l) ->
     exists ct half x0v,
       MomentumSolution.Ct record = Some ct /\ (ct / 2)%py = Some half /\
       MomentumSolution.x0 record = Some x0v /\
       l = [(half, x0v)]) /\
  (forall Ct r l,
     ThrustBasedUnified.residual self [an; u4; v4; dp; Ctprime] Ct yaw = Some (r, l) ->
     exists ct half x0v,
       MomentumSolution.Ct record = Some ct /\ (ct / 2)%py = Some half /\
       MomentumSolution.x0 record = Some x0v /\
       l = [(half, x0v)]).
Proof.
  intro record.
  assert (HU : forall r l,
             UnifiedMomentum.residual self [an; u4; v4; dp] Ctprime yaw = Some (r, l) ->
             exists ct half x0v,
               MomentumSolution.Ct record = Some ct /\ (ct / 2)%py = Some half /\
               MomentumSolution.x0 record = Some x0v /\
               l = [(half, x0v)]).
  { intros r l H. unfold UnifiedMomentum.residual in H.
    binv H as p_g l0 l0' E0 H.
    destruct (nonlinear_pressure_record self Ctprime yaw an u4 v4 dp 0.0%py 1 true
                p_g l0 E0) as (ct & half & x0v & Ect & Eh & Ex & -> & _).
    binv H as x0' l1 l1' E1 H. apply eval_Some in E1 as [_ ->].
    binv H as e_an l2 l2' E2 H. apply eval_Some in E2 as [_ ->].
    binv H as e_u4 l3 l3' E3 H. apply eval_Some in E3 as [_ ->].
    binv H as e_v4 l4 l4' E4 H. apply eval_Some in E4 as [_ ->].
    binv H as e_dp l5 l5' E5 H. apply eval_Some in E5 as [_ ->].
    apply ret_Some in H as [_ ->].
    exists ct, half, x0v. auto. }
  split; [exact HU|].
  intros Ct r l H. unfold ThrustBasedUnified.residual in H.
  binv H as r4 l0 l0' E0 H.
  destruct (HU _ _ E0) as (ct & half & x0v & Ect & Eh & Ex & ->).
  destruct r4 as [|e_an [|e_u4 [|e_v4 [|e_dp [|]]]]]; try discriminate.
  binv H as e_C l1 l1' E1 H. apply eval_Some in E1 as [_ ->].
  apply np_array_Some in H as (_ & -> & _).
  exists ct, half, x0v. auto.
Qed.

Lemma residual_pressure_call_witness :
  exists r ct half x0v,
    ThrustBasedUnified.residual (np := Reference.numpy) (pf := Reference.pressure)
      (UnifiedMomentum.init None)
      [Scalar 0.3%py; Scalar 0.4%py; Scalar 0.1%py; Scalar 0%py; Scalar 2%py] 0.8%py 0.5%py
    = Some (r, [(half, x0v)]) /\
    MomentumSolution.Ct (np := Reference.numpy)
      (MomentumSolution.mk 2%py 0.5%py 0.3%py 0.4%py 0.1%py 0%py 0.0%py 1 true
         (UnifiedMomentum.beta (UnifiedMomentum.init None))) = Some ct /\
    (ct / 2)%py = Some half.
Proof.
  destruct (ThrustBasedUnified.residual (np := Reference.numpy) (pf := Reference.pressure)
              (UnifiedMomentum.init None)
              [Scalar 0.3%py; Scalar 0.4%py; Scalar 0.1%py; Scalar 0%py; Scalar 2%py]
              0.8%py 0.5%py) as [[r l]|] eqn:E; [|vm_compute in E; discriminate].
  destruct (proj2 (residual_pressure_call (np := Reference.numpy) (pf := Reference.pressure)
                     (UnifiedMomentum.init None) 0.3%py 0.4%py 0.1%py 0%py 2%py 0.5%py)
              0.8%py r l E) as (ct & half & x0v & Ect & Eh & _ & ->).
  exists r, ct, half, x0v. split; [reflexivity|]. split; [exact Ect|exact Eh].
Defined.
